(** * IoTPotatoG5: the potato-health dashboard and its AWS helper modules

    A shallow embedding of [src/aws_utils.py], [src/aws_utils_stub.py] and
    [src/5_streamlit_app.py].

    Conventions of the embedding.
    - A Python [str] is a [string] holding one [ascii] per code point; the
      development is stated for text of the Latin-1 range (code points below
      256), which covers every literal of the three source files that the
      modelled code inspects.  Non-ASCII letters are written with their
      code point ([lat1 246] is o-umlaut).
    - A Python number is a rational [Q].  A float literal of the source is
      the decimal it is written as.  A number in a payload is the value
      [response.json()] returned, not the text it was decoded from: a JSON
      number too small for a float is [PNum 0]; an infinity or a NaN, which
      the decoder also accepts, behaves in this code like any other
      non-zero number.  The numbers are only tested for zero and passed on,
      never computed with.
    - Everything the outside world decides (HTTP answers, S3 and Lex
      outcomes, [uuid.uuid4()]) is an explicit argument.
    - A call that may raise returns [pyresult]. *)

From Stdlib Require Import List String Ascii Bool Arith ZArith NArith QArith Lia.
Import ListNotations.
Local Close Scope Q_scope.
Local Open Scope string_scope.
#[local] Set Warnings "-register-all".

(** ** Python strings over Latin-1 *)

Module PyStr.

Definition lat1 (n : N) : string := String (ascii_of_N n) EmptyString.

(** [str.lower()] on one code point below 256: A-Z and the upper-case
    letters of the Latin-1 supplement (U+00C0..U+00DE but the
    multiplication sign U+00D7) move up by 32; all else is unchanged. *)
Definition lower_char (c : ascii) : ascii :=
  let n := N_of_ascii c in
  if ((65 <=? n) && (n <=? 90))%N then ascii_of_N (n + 32)
  else if ((192 <=? n) && (n <=? 222) && negb (n =? 215))%N
       then ascii_of_N (n + 32)
  else c.

Fixpoint lower (s : string) : string :=
  match s with
  | EmptyString => EmptyString
  | String c r => String (lower_char c) (lower r)
  end.

(** The Latin-1 upper-case counterpart of a letter, used only to say what
    a case variation of a name is. *)
Definition upper_char (c : ascii) : ascii :=
  let n := N_of_ascii c in
  if ((97 <=? n) && (n <=? 122))%N then ascii_of_N (n - 32)
  else if ((224 <=? n) && (n <=? 254) && negb (n =? 247))%N
       then ascii_of_N (n - 32)
  else c.

(** [truthy s] is Python's [bool(s)] for a string. *)
Definition truthy (s : string) : bool :=
  match s with EmptyString => false | _ => true end.

(** [sub in s] for strings. *)
Fixpoint contains (sub s : string) : bool :=
  if prefix sub s then true
  else match s with
       | EmptyString => false
       | String _ r => contains sub r
       end.

(** [sep.join(parts)]. *)
Fixpoint join (sep : string) (parts : list string) : string :=
  match parts with
  | [] => ""
  | [p] => p
  | p :: rest => p ++ sep ++ join sep rest
  end.

(** [posixpath.basename]: what follows the last slash. *)
Fixpoint after_last_slash (cur p : string) : string :=
  match p with
  | EmptyString => cur
  | String c r =>
      if Ascii.eqb c "/" then after_last_slash "" r
      else after_last_slash (cur ++ String c "") r
  end.

Definition basename (p : string) : string := after_last_slash "" p.

(** [s.replace(old, new)] for a non-empty [old]: occurrences are replaced
    left to right without overlap.  [skip] counts the characters of a
    matched occurrence still to be dropped. *)
Fixpoint replace_from (old new : string) (skip : nat) (s : string) : string :=
  match s with
  | EmptyString => EmptyString
  | String c r =>
      match skip with
      | S k => replace_from old new k r
      | O => if prefix old s
             then new ++ replace_from old new (String.length old - 1) r
             else String c (replace_from old new 0 r)
      end
  end.

Definition replace (old new s : string) : string := replace_from old new 0 s.

Definition newline : string := String (ascii_of_N 10) "".

End PyStr.
Import PyStr.

(** ** Python exceptions and results *)

(** The exception classes the modelled code can meet.
    [RequestsJSONDecodeError] is [requests.exceptions.JSONDecodeError],
    which newer releases of requests raise from [response.json()]; it
    derives from both [RequestException] and [json.JSONDecodeError].
    [OtherRequestException] stands for [RequestException] itself and for
    each of its subclasses not listed by name ([TooManyRedirects],
    [ChunkedEncodingError], [ContentDecodingError], ...). *)
Inductive pyexn : Type :=
| ConnectionError | Timeout | HTTPError
| OtherRequestException (class_name : string)
| RequestsJSONDecodeError | JSONDecodeError
| AttributeError | KeyError | IndexError | TypeError | ValueError
| ClientError (code : option string)
| OtherException.

Inductive pyresult (A : Type) : Type :=
| Normal (a : A)
| Raised (e : pyexn).
Arguments Normal {A} a.
Arguments Raised {A} e.

Definition pybind {A B} (m : pyresult A) (k : A -> pyresult B) : pyresult B :=
  match m with
  | Normal a => k a
  | Raised e => Raised e
  end.

Notation "x <- m ;; k" := (pybind m (fun x => k))
  (at level 61, m at next level, right associativity).

(** [isinstance(e, requests.exceptions.RequestException)]. *)
Definition is_RequestException (e : pyexn) : bool :=
  match e with
  | ConnectionError | Timeout | HTTPError | OtherRequestException _
  | RequestsJSONDecodeError => true
  | _ => false
  end.

(** [isinstance(e, json.JSONDecodeError)]. *)
Definition is_JSONDecodeError (e : pyexn) : bool :=
  match e with
  | RequestsJSONDecodeError | JSONDecodeError => true
  | _ => false
  end.

(** ** Python values decoded from JSON *)

(** What [response.json()] can return.  A dict keeps its keys as strings,
    as JSON has them, in insertion order. *)
Inductive pyval : Type :=
| PNone
| PBool (b : bool)
| PNum (q : Q)
| PStr (s : string)
| PList (l : list pyval)
| PDict (kv : list (string * pyval)).

Fixpoint assoc {V : Type} (k : string) (d : list (string * V)) : option V :=
  match d with
  | [] => None
  | (k', v) :: r => if String.eqb k k' then Some v else assoc k r
  end.

Definition py_truthy (v : pyval) : bool :=
  match v with
  | PNone => false
  | PBool b => b
  | PNum q => negb (Qeq_bool q 0%Q)
  | PStr s => truthy s
  | PList l => match l with [] => false | _ => true end
  | PDict kv => match kv with [] => false | _ => true end
  end.

(** [v.get(k)]: only a dict has the method. *)
Definition py_get (v : pyval) (k : string) : pyresult pyval :=
  match v with
  | PDict kv => Normal (match assoc k kv with Some x => x | None => PNone end)
  | _ => Raised AttributeError
  end.

(** [v[k]] for a string [k]. *)
Definition py_getitem (v : pyval) (k : string) : pyresult pyval :=
  match v with
  | PDict kv => match assoc k kv with
                | Some x => Normal x
                | None => Raised KeyError
                end
  | _ => Raised TypeError
  end.

(** [v[0]]: a dict decoded from JSON has no integer key. *)
Definition py_getitem0 (v : pyval) : pyresult pyval :=
  match v with
  | PList (x :: _) => Normal x
  | PList [] => Raised IndexError
  | PStr (String c _) => Normal (PStr (String c ""))
  | PStr EmptyString => Raised IndexError
  | PDict _ => Raised KeyError
  | _ => Raised TypeError
  end.

Fixpoint chars (s : string) : list pyval :=
  match s with
  | EmptyString => []
  | String c r => PStr (String c "") :: chars r
  end.

(** [for x in v]: the items a loop over [v] sees. *)
Definition py_iter (v : pyval) : pyresult (list pyval) :=
  match v with
  | PList l => Normal l
  | PStr s => Normal (chars s)
  | PDict kv => Normal (map (fun p => PStr (fst p)) kv)
  | _ => Raised TypeError
  end.

(** Using [v] as a dict key hashes it; lists and dicts are unhashable. *)
Definition py_hash (v : pyval) : pyresult unit :=
  match v with
  | PList _ | PDict _ => Raised TypeError
  | _ => Normal tt
  end.

Definition is_number (v : pyval) : bool :=
  match v with PNum _ => true | _ => false end.

(** [v == s] where [v] is [None] or a string. *)
Definition opt_eq_str (v : option string) (s : string) : bool :=
  match v with
  | Some s' => String.eqb s' s
  | None => false
  end.

(** ** The weather snapshot *)

Record weather : Type := mk_weather {
  temp : pyval;
  humidity : pyval;
  precip : pyval;
  error : option string
}.

Definition NA : pyval := PStr "N/A".

(** The dict [weather_result] starts from, and the same dict with its
    ["error"] entry set. *)
Definition unavailable : weather :=
  {| temp := NA; humidity := NA; precip := NA; error := None |}.

Definition set_error (w : weather) (msg : string) : weather :=
  {| temp := temp w; humidity := humidity w; precip := precip w;
     error := Some msg |}.

(** The GET request [get_weather_for_location] issues: the URL carries the
    longitude and latitude with two decimals, which is how the registry
    writes them. *)
Record smhi_request : Type := {
  req_lon : Q;
  req_lat : Q;
  req_user_agent : string;
  req_timeout : nat
}.

(** The world's answer to a request: the outcome of [requests.get],
    [raise_for_status] and [response.json()] taken together.  A network
    failure is [Raised ConnectionError], a timeout [Raised Timeout], a
    status outside 2xx [Raised HTTPError], an undecodable body one of the
    two [JSONDecodeError] classes. *)
Definition http_oracle : Type := smhi_request -> pyresult pyval.

(** ** What the AWS clients and the uploaded object look like *)

(** The object handed to [upload_to_s3]: [getattr(file_obj, 'filename',
    None)] sees no attribute ([None]), an attribute that is [None]
    ([Some None]) or a name. *)
Record file_obj : Type := {
  filename_attr : option (option string);
  file_bytes : list Byte.byte
}.

(** What [s3_client.upload_fileobj] does. *)
Inductive s3_outcome : Type :=
| S3Stored
| S3Raised (e : pyexn).

(** One entry of the [messages] list of a [recognize_text] response. *)
Record lex_message : Type := {
  lex_contentType : option string;
  lex_content : option string
}.

(** The response dict of [recognize_text]: [None] when it has no
    ['messages'] key (an empty response included). *)
Definition lex_response : Type := option (list lex_message).

Definition lex_oracle : Type := pyresult lex_response.

(** ** aws_utils.py: the location registry *)

Definition coords : Type := (Q * Q)%type.

Module aws_utils.

Definition LOCATION_COORDS : list (string * coords) :=
  [ ("uppsala", (59.86, 17.64)%Q);
    ("stockholm", (59.33, 18.06)%Q);
    ("malm" ++ lat1 246, (55.60, 13.00)%Q);
    ("malmo", (55.60, 13.00)%Q);
    ("g" ++ lat1 246 ++ "teborg", (57.71, 11.97)%Q);
    ("goteborg", (57.71, 11.97)%Q);
    (lat1 246 ++ "rebro", (59.27, 15.21)%Q);
    ("orebro", (59.27, 15.21)%Q);
    ("link" ++ lat1 246 ++ "ping", (58.41, 15.62)%Q);
    ("linkoping", (58.41, 15.62)%Q);
    ("v" ++ lat1 228 ++ "ster" ++ lat1 229 ++ "s", (59.61, 16.55)%Q);
    ("vasteras", (59.61, 16.55)%Q);
    ("lund", (55.70, 13.19)%Q) ].

Definition DEFAULT_LOCATION : string := "uppsala".

(** [LOCATION_COORDS[DEFAULT_LOCATION]], evaluated when the module loads;
    the key is in the table, so the [KeyError] branch is dead. *)
Definition DEFAULT_COORDS : coords :=
  match assoc DEFAULT_LOCATION LOCATION_COORDS with
  | Some c => c
  | None => (0, 0)%Q
  end.

(** [location_name] is [None] or a [str]. *)
Definition get_coordinates (location_name : option string) : coords :=
  match location_name with
  | None => DEFAULT_COORDS
  | Some name =>
      if negb (truthy name) then DEFAULT_COORDS
      else
        let location_name_lower := lower name in
        match assoc location_name_lower LOCATION_COORDS with
        | Some c => c
        | None => DEFAULT_COORDS
        end
  end.

(** *** get_weather_for_location *)

Definition smhi_request_for (c : coords) : smhi_request :=
  let (lat, lon) := c in
  {| req_lon := lon; req_lat := lat;
     req_user_agent := "PotatoHealthAppUI/1.0 (YourContactInfoHere)";
     req_timeout := 10 |}.

(** The dict comprehension
    [{param["name"]: param["values"][0] for param in ...}], as the
    sequence of its stores.  Each round evaluates the key, then the value,
    then hashes the key to store the pair. *)
Fixpoint build_parameters (items : list pyval)
  : pyresult (list (pyval * pyval)) :=
  match items with
  | [] => Normal []
  | param :: rest =>
      name <- py_getitem param "name" ;;
      vals <- py_getitem param "values" ;;
      v0 <- py_getitem0 vals ;;
      _ <- py_hash name ;;
      stores <- build_parameters rest ;;
      Normal ((name, v0) :: stores)
  end.

(** [parameters.get(k, default)] for a string [k] on the dict those stores
    build: a later store of an equal key replaces an earlier one, and only
    a string key equals the string [k]. *)
Fixpoint stored (k : string) (stores : list (pyval * pyval)) : option pyval :=
  match stores with
  | [] => None
  | (key, v) :: rest =>
      match stored k rest with
      | Some v' => Some v'
      | None => match key with
                | PStr k' => if String.eqb k k' then Some v else None
                | _ => None
                end
      end
  end.

Definition parameters_get (stores : list (pyval * pyval)) (k : string)
    (default : pyval) : pyval :=
  match stored k stores with
  | Some v => v
  | None => default
  end.

(** The body of the [try] block from the decoded payload on.
    [weather_result] is only written right before a [return], so an
    exception always leaves it as it started. *)
Definition extract (weather_data : pyval) : pyresult weather :=
  series <- py_get weather_data "timeSeries" ;;
  if negb (py_truthy series)
  then Normal (set_error unavailable "SMHI API data format error.")
  else
    series <- py_getitem weather_data "timeSeries" ;;
    first_forecast <- py_getitem0 series ;;
    params <- py_getitem first_forecast "parameters" ;;
    items <- py_iter params ;;
    parameters <- build_parameters items ;;
    Normal {| temp := parameters_get parameters "t" NA;
              humidity := parameters_get parameters "r" NA;
              precip := parameters_get parameters "pmean" NA;
              error := None |}.

(** The whole [try] block: the request, then the extraction. *)
Definition fetch_and_extract (http : http_oracle) (c : coords)
  : pyresult weather :=
  weather_data <- http (smhi_request_for c) ;;
  extract weather_data.

(** The three [except] clauses, tried in the order they are written. *)
Definition weather_error_message (e : pyexn) : string :=
  if is_RequestException e then "Could not reach weather service."
  else if is_JSONDecodeError e then "Error reading weather data."
  else "Unexpected weather error.".

Definition get_weather_for_location (http : http_oracle)
    (location_name : option string) : pyresult weather :=
  let c := get_coordinates location_name in
  match fetch_and_extract http c with
  | Normal w => Normal w
  | Raised e => Normal (set_error unavailable (weather_error_message e))
  end.

(** *** upload_to_s3 *)

(** [uuid] is the text of the [uuid.uuid4()] drawn by this call. *)
Definition upload_to_s3 (uuid : string) (s3 : s3_outcome)
    (f : file_obj) (bucket_name : string) (object_name : option string)
  : pyresult (option string) :=
  let object_name :=
    match object_name with
    | Some n => n
    | None =>
        let attr := match filename_attr f with
                    | Some a => a
                    | None => None
                    end in
        match attr with
        | Some n =>
            if truthy n
            then "uploads/" ++ uuid ++ "-"
                 ++ replace "/" "_" (replace ".." "_" (basename n))
            else "uploads/" ++ uuid
        | None => "uploads/" ++ uuid
        end
    end in
  match s3 with
  | S3Stored => Normal (Some object_name)
  | S3Raised _ => Normal None
  end.

(** *** post_text_to_lex *)

(** The loop over [response['messages']]; [msg['content']] raises
    [KeyError] when the key is missing. *)
Fixpoint collect_plain_text (msgs : list lex_message)
  : pyresult (list string) :=
  match msgs with
  | [] => Normal []
  | msg :: rest =>
      if opt_eq_str (lex_contentType msg) "PlainText" then
        match lex_content msg with
        | Some c => tail <- collect_plain_text rest ;; Normal (c :: tail)
        | None => Raised KeyError
        end
      else collect_plain_text rest
  end.

(** The formatted value [{error_code}] of an f-string. *)
Definition fmt_code (code : option string) : string :=
  match code with
  | Some c => c
  | None => "None"
  end.

Definition lex_try_body (lex : lex_oracle) : pyresult (list string) :=
  response <- lex ;;
  messages <- match response with
              | Some msgs => collect_plain_text msgs
              | None => Normal []
              end ;;
  match messages with
  | [] => Normal ["Sorry, I didn't get a response. Try again."]
  | _ => Normal messages
  end.

Definition post_text_to_lex (lex : lex_oracle)
    (bot_id alias_id session_id input_text : string)
    (session_attributes : option (list (string * string)))
  : pyresult (list string) :=
  match lex_try_body lex with
  | Normal messages => Normal messages
  | Raised (ClientError error_code) =>
      if opt_eq_str error_code "AccessDeniedException" then
        Normal ["Error: Access denied when calling Lex. Check UI credentials."]
      else if opt_eq_str error_code "ResourceNotFoundException" then
        Normal ["Error: Lex bot or alias not found. Check configuration."]
      else
        Normal ["An error occurred communicating with the bot ("
                ++ fmt_code error_code ++ ")."]
  | Raised _ => Normal ["An unexpected error occurred."]
  end.

End aws_utils.

(** ** aws_utils_stub.py *)

Module aws_utils_stub.

Definition LOCATION_COORDS : list (string * coords) :=
  [ ("Uppsala", (59.86, 17.64)%Q);
    ("Stockholm", (59.33, 18.06)%Q);
    ("Malm" ++ lat1 246, (55.60, 13.00)%Q);
    ("G" ++ lat1 246 ++ "teborg", (57.71, 11.97)%Q);
    (lat1 214 ++ "rebro", (59.27, 15.21)%Q);
    ("Link" ++ lat1 246 ++ "ping", (58.41, 15.62)%Q);
    ("Vasteras", (59.61, 16.55)%Q);
    ("Lund", (55.70, 13.19)%Q) ].

Definition DEFAULT_LOCATION : string := "Stockholm".

(** [len(location_name)] raises [TypeError] on [None].  The three fake
    readings are an int, an int and a float rounded to one decimal. *)
Definition get_weather_for_location (location_name : option string)
  : pyresult weather :=
  match location_name with
  | None => Raised TypeError
  | Some name =>
      let n := String.length name in
      Normal {| temp := PNum (inject_Z (Z.of_nat (10 + n mod 15)));
                humidity := PNum (inject_Z (Z.of_nat (60 + n mod 30)));
                precip := PNum (Z.of_nat (n mod 5) # 10)%Q;
                error := None |}
  end.

(** [os.path.basename(None)] raises [TypeError]; reading the file object
    is wrapped in its own [try] and changes nothing. *)
Definition upload_to_s3 (uuid : string) (f : file_obj)
    (bucket_name : string) (object_name : option string)
  : pyresult (option string) :=
  let original_filename :=
    match filename_attr f with
    | Some a => a
    | None => Some "unknown_file"
    end in
  let object_name :=
    match object_name with
    | Some n => Some n
    | None => original_filename
    end in
  match object_name with
  | Some n => Normal (Some ("uploads/" ++ uuid ++ "-" ++ basename n))
  | None => Raised TypeError
  end.

Definition post_text_to_lex (bot_id alias_id session_id input_text : string)
    (session_attributes : option (list (string * string)))
  : pyresult (list string) :=
  let response_message := "Okay, you asked about '" ++ input_text ++ "'." in
  let response_message :=
    match session_attributes with
    | Some ((_ :: _) as attrs) =>
        match assoc "currentLocation" attrs with
        | Some loc =>
            response_message ++ " Location context is '" ++ loc ++ "'."
        | None => response_message
        end
    | _ => response_message
    end in
  let text := lower input_text in
  if contains "risk" text || contains "high" text then
    Normal [ "Weather indicates high risk based on your query.";
             "Please provide the filename of the uploaded image for analysis." ]
  else if contains "filename" text || contains ".jpg" text
          || contains ".png" text then
    Normal [ "Okay, analyzing image '" ++ input_text ++ "' (simulated).";
             "Diagnosis: Healthy (Confidence: 95.0%) - This is a stub result." ]
  else Normal [response_message].

End aws_utils_stub.

(** ** The helper module the application imports *)

(** What one run of the script gets from outside: the answers of the
    services, the identifiers [uuid.uuid4()] draws, and whether PIL opens
    the uploaded bytes as a picture. *)
Record answers : Type := {
  http : http_oracle;
  s3 : s3_outcome;
  lex : lex_oracle;
  session_uuid : string;
  upload_uuid : string;
  image_open : list Byte.byte -> pyresult (list Byte.byte)
}.

(** [5_streamlit_app.py] reaches its helpers through one module name;
    replacing [aws_utils_stub] by [aws_utils] in the import switches from
    canned to live services.  The record is that module's interface. *)
Record helper_module : Type := {
  LOCATION_COORDS : list (string * coords);
  DEFAULT_LOCATION : string;
  get_weather_for_location : answers -> option string -> pyresult weather;
  upload_to_s3 :
    answers -> file_obj -> string -> option string -> pyresult (option string);
  post_text_to_lex :
    answers -> string -> string -> string -> string ->
    option (list (string * string)) -> pyresult (list string)
}.

Definition live : helper_module := {|
  LOCATION_COORDS := aws_utils.LOCATION_COORDS;
  DEFAULT_LOCATION := aws_utils.DEFAULT_LOCATION;
  get_weather_for_location o :=
    aws_utils.get_weather_for_location (http o);
  upload_to_s3 o := aws_utils.upload_to_s3 (upload_uuid o) (s3 o);
  post_text_to_lex o := aws_utils.post_text_to_lex (lex o)
|}.

Definition stub : helper_module := {|
  LOCATION_COORDS := aws_utils_stub.LOCATION_COORDS;
  DEFAULT_LOCATION := aws_utils_stub.DEFAULT_LOCATION;
  get_weather_for_location _ := aws_utils_stub.get_weather_for_location;
  upload_to_s3 o := aws_utils_stub.upload_to_s3 (upload_uuid o);
  post_text_to_lex _ := aws_utils_stub.post_text_to_lex
|}.

(** ** 5_streamlit_app.py: session state *)

Inductive role : Type := user | assistant.

(** One entry of [st.session_state.messages]. *)
Record message : Type := {
  msg_role : role;
  content : string
}.

(** The six keys of [st.session_state].  The first run of the script sets
    all of them before anything else happens, so a connection either has
    none of them or all. *)
Record session_state : Type := {
  lex_session_id : string;
  messages : list message;
  current_location : string;
  current_weather : weather;
  uploaded_image : option (list Byte.byte);
  uploaded_image_key : option string
}.

(** The three environment variables read when the script starts. *)
Record config : Type := {
  S3_BUCKET : string;
  LEX_BOT_ID : string;
  LEX_BOT_ALIAS_ID : string
}.

(** The file in the upload widget. *)
Record uploaded_file : Type := {
  name : string;
  getvalue : list Byte.byte
}.

(** What the three input widgets return in one run: the entry the user
    picked in the select box ([None]: untouched, the box shows the current
    location), the submitted chat text, the file in the uploader. *)
Record widgets : Type := {
  picked_location : option string;
  chat_input : option string;
  file_uploader : option uploaded_file
}.

(** Calls and writes the script makes, in the order it makes them. *)
Inductive event : Type :=
| Appended (m : message)
| WeatherFetched (location : string)
| LexCalled (bot_id alias_id session_id input_text : string)
            (session_attributes : list (string * string))
| UploadCalled (bucket : string) (object_name : string).

(** ** The script as a state monad with a log and early exit *)

(** How a piece of the script ends: it falls through to the next
    statement, calls [st.rerun()], or lets an exception escape. *)
Inductive flow (A : Type) : Type :=
| Continue (a : A)
| Rerun
| Escaped (e : pyexn).
Arguments Continue {A} a.
Arguments Rerun {A}.
Arguments Escaped {A} e.

Record world : Type := {
  session : session_state;
  log : list event
}.

Definition App (A : Type) : Type := world -> flow A * world.

Definition ret {A} (a : A) : App A := fun w => (Continue a, w).

Definition bind {A B} (m : App A) (k : A -> App B) : App B :=
  fun w =>
    match m w with
    | (Continue a, w') => k a w'
    | (Rerun, w') => (Rerun, w')
    | (Escaped e, w') => (Escaped e, w')
    end.

Notation "x <-- m ;; k" := (bind m (fun x => k))
  (at level 61, m at next level, right associativity).

Definition get_session : App session_state :=
  fun w => (Continue (session w), w).

Definition put_session (s : session_state) : App unit :=
  fun w => (Continue tt, {| session := s; log := log w |}).

Definition emit (e : event) : App unit :=
  fun w => (Continue tt, {| session := session w; log := log w ++ [e] |}).

Definition rerun : App unit := fun w => (Rerun, w).

(** A helper call: its exception, if any, escapes. *)
Definition call {A} (r : pyresult A) : App A :=
  fun w =>
    match r with
    | Normal a => (Continue a, w)
    | Raised e => (Escaped e, w)
    end.

(** [try: body except Exception: handler]; [st.rerun()] is not an
    [Exception] and passes through. *)
Definition try_except {A} (body : App A) (handler : pyexn -> App A) : App A :=
  fun w =>
    match body w with
    | (Escaped e, w') => handler e w'
    | r => r
    end.

Definition set_messages (s : session_state) (ms : list message) :=
  {| lex_session_id := lex_session_id s; messages := ms;
     current_location := current_location s;
     current_weather := current_weather s;
     uploaded_image := uploaded_image s;
     uploaded_image_key := uploaded_image_key s |}.

Definition set_current_location (s : session_state) (l : string) :=
  {| lex_session_id := lex_session_id s; messages := messages s;
     current_location := l;
     current_weather := current_weather s;
     uploaded_image := uploaded_image s;
     uploaded_image_key := uploaded_image_key s |}.

Definition set_current_weather (s : session_state) (w : weather) :=
  {| lex_session_id := lex_session_id s; messages := messages s;
     current_location := current_location s;
     current_weather := w;
     uploaded_image := uploaded_image s;
     uploaded_image_key := uploaded_image_key s |}.

Definition set_uploaded (s : session_state)
    (img : option (list Byte.byte)) (key : option string) :=
  {| lex_session_id := lex_session_id s; messages := messages s;
     current_location := current_location s;
     current_weather := current_weather s;
     uploaded_image := img;
     uploaded_image_key := key |}.

(** [xs.index(x)]. *)
Fixpoint index (x : string) (xs : list string) : pyresult nat :=
  match xs with
  | [] => Raised ValueError
  | y :: r => if String.eqb x y then Normal 0
              else i <- index x r ;; Normal (S i)
  end.

(** [v == s] for a string [s]. *)
Definition py_eq_str (v : pyval) (s : string) : bool :=
  match v with
  | PStr s' => String.eqb s' s
  | _ => false
  end.

(** ** The script, block by block *)

Section Script.

Variable U : helper_module.
Variable cfg : config.
Variable o : answers.

Definition AVAILABLE_LOCATIONS : list string := map fst (LOCATION_COORDS U).

(** Session State Initialization: each key is set only when it is
    missing. *)
Definition initialise (bag : option session_state) : session_state :=
  match bag with
  | Some s => s
  | None =>
      {| lex_session_id := "st-session-" ++ session_uuid o;
         messages := [];
         current_location := DEFAULT_LOCATION U;
         current_weather := unavailable;
         uploaded_image := None;
         uploaded_image_key := None |}
  end.

Definition append_message (m : message) : App unit :=
  s <-- get_session ;;
  _ <-- put_session (set_messages s (messages s ++ [m])) ;;
  emit (Appended m).

Definition update_weather (location : string) : App unit :=
  _ <-- emit (WeatherFetched location) ;;
  w <-- call (get_weather_for_location U o (Some location)) ;;
  s <-- get_session ;;
  put_session (set_current_weather s w).

(** Header Area: the select box and the location change. *)
Definition header_block (picked : option string) : App unit :=
  s <-- get_session ;;
  _ <-- call (index (current_location s) AVAILABLE_LOCATIONS) ;;
  let selected_location :=
    match picked with
    | Some l => l
    | None => current_location s
    end in
  if negb (String.eqb selected_location (current_location s)) then
    _ <-- put_session (set_current_location s selected_location) ;;
    _ <-- update_weather selected_location ;;
    rerun
  else ret tt.

(** Column 1: the chat input. *)
Definition chat_block (input : option string) : App unit :=
  match input with
  | Some prompt =>
      if truthy prompt then
        _ <-- append_message {| msg_role := user; content := prompt |} ;;
        s <-- get_session ;;
        let lex_attributes := [("currentLocation", current_location s)] in
        _ <-- emit (LexCalled (LEX_BOT_ID cfg) (LEX_BOT_ALIAS_ID cfg)
                      (lex_session_id s) prompt lex_attributes) ;;
        bot_responses <-- call (post_text_to_lex U o (LEX_BOT_ID cfg)
                                  (LEX_BOT_ALIAS_ID cfg) (lex_session_id s)
                                  prompt (Some lex_attributes)) ;;
        let full_response := join (newline ++ newline) bot_responses in
        _ <-- append_message
                {| msg_role := assistant; content := full_response |} ;;
        rerun
      else ret tt
  | None => ret tt
  end.

Definition clear_upload : App unit :=
  s <-- get_session ;;
  put_session (set_uploaded s None None).

(** Column 2: the upload.  The bytes go to the helper wrapped in a
    [BytesIO], which has no [filename] attribute. *)
Definition upload_block (uploaded : option uploaded_file) : App unit :=
  match uploaded with
  | Some f =>
      try_except
        (let img_bytes := getvalue f in
         image <-- call (image_open o img_bytes) ;;
         _ <-- emit (UploadCalled (S3_BUCKET cfg) (name f)) ;;
         s3_object_name <--
           call (upload_to_s3 U o
                   {| filename_attr := None; file_bytes := img_bytes |}
                   (S3_BUCKET cfg) (Some (name f))) ;;
         match s3_object_name with
         | Some key =>
             if truthy key then
               let base_filename := basename key in
               s <-- get_session ;;
               put_session (set_uploaded s (Some image) (Some base_filename))
             else clear_upload
         | None => clear_upload
         end)
        (fun _ => clear_upload)
  | None => ret tt
  end.

(** Initial Weather Fetch on Load. *)
Definition initial_weather_block : App unit :=
  s <-- get_session ;;
  if py_eq_str (temp (current_weather s)) "N/A" then
    _ <-- update_weather (current_location s) ;;
    rerun
  else ret tt.

Definition script (w : widgets) : App unit :=
  _ <-- header_block (picked_location w) ;;
  _ <-- chat_block (chat_input w) ;;
  _ <-- upload_block (file_uploader w) ;;
  initial_weather_block.

(** One run of the script on the stored session [bag]. *)
Definition run (w : widgets) (bag : option session_state)
  : flow unit * world :=
  script w {| session := initialise bag; log := [] |}.

Definition state_after (w : widgets) (bag : option session_state)
  : session_state :=
  session (snd (run w bag)).

End Script.

(** * Vocabulary of the properties *)

(** [s] is a case variation of [t]: the same length, and each character is
    the one of [t] or its upper-case or lower-case counterpart. *)
Fixpoint case_variant (s t : string) : bool :=
  match s, t with
  | EmptyString, EmptyString => true
  | String a s', String b t' =>
      (Ascii.eqb a b || Ascii.eqb a (upper_char b)
       || Ascii.eqb a (lower_char b))
      && case_variant s' t'
  | _, _ => false
  end.

(** The spelling without diacritics that the registry lists next to an
    accented name: a-umlaut and a-ring become a, o-umlaut becomes o. *)
Definition deaccent_char (c : ascii) : ascii :=
  let n := N_of_ascii c in
  if ((n =? 228) || (n =? 229))%N then "a"%char
  else if (n =? 246)%N then "o"%char
  else c.

Fixpoint deaccent (s : string) : string :=
  match s with
  | EmptyString => EmptyString
  | String c r => String (deaccent_char c) (deaccent r)
  end.

(** The snapshot carries a human-readable error message. *)
Definition has_error (w : weather) : Prop :=
  exists msg, error w = Some msg /\ msg <> "".

(** All three readings are "N/A". *)
Definition all_unavailable (w : weather) : Prop :=
  temp w = NA /\ humidity w = NA /\ precip w = NA.

(** The shape of payload the extraction can walk: an object whose
    ["timeSeries"] is a list starting with an object, whose ["parameters"]
    is a list of objects that each have a hashable ["name"] and a
    ["values"] with a first element.  (A ["parameters"] that is an empty
    string or an empty object is walked too: the loop runs no round.) *)
Definition has_first (v : pyval) : bool :=
  match v with
  | PList (_ :: _) => true
  | PStr (String _ _) => true
  | _ => false
  end.

Definition hashable (v : pyval) : bool :=
  match v with
  | PList _ | PDict _ => false
  | _ => true
  end.

Definition parameter_ok (p : pyval) : bool :=
  match p with
  | PDict kv =>
      match assoc "name" kv, assoc "values" kv with
      | Some nm, Some vals => hashable nm && has_first vals
      | _, _ => false
      end
  | _ => false
  end.

Definition parameters_ok (ps : pyval) : bool :=
  match ps with
  | PList l => forallb parameter_ok l
  | PStr EmptyString => true
  | PDict [] => true
  | _ => false
  end.

Definition walkable (j : pyval) : bool :=
  match j with
  | PDict top =>
      match assoc "timeSeries" top with
      | Some (PList (PDict forecast :: _)) =>
          match assoc "parameters" forecast with
          | Some ps => parameters_ok ps
          | None => false
          end
      | _ => false
      end
  | _ => false
  end.

(** A fetch fails when the request raises (no connection, timeout, status
    outside 2xx), when the body cannot be decoded (that too is an
    exception of the request), or when the decoded payload is malformed:
    not of the shape above. *)
Definition fetch_failed (http : http_oracle) (location_name : option string)
  : Prop :=
  let request := aws_utils.smhi_request_for
                   (aws_utils.get_coordinates location_name) in
  (exists e, http request = Raised e)
  \/ (exists j, http request = Normal j /\ walkable j = false).

(** The entries under ["parameters"] of the first forecast of a payload
    shaped as the service documents it. *)
Definition first_forecast_parameters (j : pyval) : list pyval :=
  match j with
  | PDict top =>
      match assoc "timeSeries" top with
      | Some (PList (PDict forecast :: _)) =>
          match assoc "parameters" forecast with
          | Some (PList ps) => ps
          | _ => []
          end
      | _ => []
      end
  | _ => []
  end.

(** The entry [param] lists [v] as the first value of parameter [k]. *)
Definition supplies (k : string) (v : pyval) (param : pyval) : Prop :=
  py_getitem param "name" = Normal (PStr k)
  /\ exists vals, py_getitem param "values" = Normal vals
                  /\ py_getitem0 vals = Normal v.

(** A reading [v] for parameter [k] agrees with the payload [j]: it is a
    value the first forecast supplies for [k], or it is "N/A" and the
    first forecast supplies none. *)
Definition reading_of (k : string) (v : pyval) (j : pyval) : Prop :=
  (exists p, In p (first_forecast_parameters j) /\ supplies k v p)
  \/ (v = NA
      /\ forall p v', In p (first_forecast_parameters j) -> ~ supplies k v' p).

(** A payload that parses, has a forecast series, and whose first forecast
    lists no parameters. *)
Definition payload_without_parameters : pyval :=
  PDict [("timeSeries", PList [PDict [("parameters", PList [])]])].

(** A payload as the service sends it, cut down to the parameters read. *)
Definition payload_sample : pyval :=
  PDict
    [("timeSeries",
      PList
        [PDict
           [("validTime", PStr "2025-05-01T12:00:00Z");
            ("parameters",
             PList
               [PDict [("name", PStr "t"); ("unit", PStr "Cel");
                       ("values", PList [PNum 12.3%Q])];
                PDict [("name", PStr "r"); ("unit", PStr "percent");
                       ("values", PList [PNum 64%Q])];
                PDict [("name", PStr "pmean"); ("unit", PStr "kg/m2/h");
                       ("values", PList [PNum 0.0%Q])]])]])].

(** The three kinds of engine failure a caller is to tell apart. *)
Inductive failure_category : Type :=
| Authorization
| ConfigurationNotFound
| Generic.

Definition category (e : pyexn) : failure_category :=
  match e with
  | ClientError code =>
      if opt_eq_str code "AccessDeniedException" then Authorization
      else if opt_eq_str code "ResourceNotFoundException"
           then ConfigurationNotFound
      else Generic
  | _ => Generic
  end.

(** The sentence of the interface description: one fixed reply per
    category, the three replies different. *)
Definition fixed_fallback_per_category : Prop :=
  exists fallback : failure_category -> string,
    (forall c c', fallback c = fallback c' -> c = c')
    /\ forall e bot_id alias_id session_id input_text attrs,
         aws_utils.post_text_to_lex (Raised e) bot_id alias_id session_id
           input_text attrs
         = Normal [fallback (category e)].

Definition access_denied_reply : string :=
  "Error: Access denied when calling Lex. Check UI credentials.".

Definition not_found_reply : string :=
  "Error: Lex bot or alias not found. Check configuration.".

Definition unexpected_reply : string := "An unexpected error occurred.".

Definition client_error_reply (code : option string) : string :=
  "An error occurred communicating with the bot ("
  ++ aws_utils.fmt_code code ++ ").".

(** What the two handlers answer to an exception raised in the [try]. *)
Definition handler_reply (e : pyexn) : string :=
  match category e with
  | Authorization => access_denied_reply
  | ConfigurationNotFound => not_found_reply
  | Generic =>
      match e with
      | ClientError code => client_error_reply code
      | _ => unexpected_reply
      end
  end.

(** The snapshot [get_weather_for_location] makes of an answer of the
    weather service. *)
Definition snapshot_of_answer (answer : pyresult pyval) : weather :=
  match j <- answer ;; aws_utils.extract j with
  | Normal w => w
  | Raised e => set_error unavailable (aws_utils.weather_error_message e)
  end.

(** The transcript is a sequence of pairs, a user turn then an assistant
    turn. *)
Fixpoint alternating (ms : list message) : bool :=
  match ms with
  | [] => true
  | u :: a :: rest =>
      match msg_role u, msg_role a with
      | user, assistant => alternating rest
      | _, _ => false
      end
  | _ => false
  end.

(** The widgets of a run in which the user did nothing. *)
Definition untouched : widgets :=
  {| picked_location := None; chat_input := None; file_uploader := None |}.

(** The select box only offers the registered names. *)
Definition offered (U : helper_module) (w : widgets) : Prop :=
  match picked_location w with
  | Some l => In l (AVAILABLE_LOCATIONS U)
  | None => True
  end.

(** The session states a connection can be in between two runs of the
    script: the first run starts from an empty [st.session_state], every
    later run from the state the previous one left. *)
Inductive reachable (U : helper_module) (cfg : config)
  : session_state -> Prop :=
| reach_first (o : answers) (w : widgets) :
    offered U w -> reachable U cfg (state_after U cfg o w None)
| reach_next (o : answers) (w : widgets) (s : session_state) :
    reachable U cfg s -> offered U w ->
    reachable U cfg (state_after U cfg o w (Some s)).

(** The two modules the import line can name. *)
Definition importable (U : helper_module) : Prop := U = live \/ U = stub.

Definition user_turn (text : string) : message :=
  {| msg_role := user; content := text |}.

Definition assistant_turn (text : string) : message :=
  {| msg_role := assistant; content := text |}.

(** Sample surroundings for concrete runs. *)
Definition sample_config : config :=
  {| S3_BUCKET := "potato-images"; LEX_BOT_ID := "BOTID12345";
     LEX_BOT_ALIAS_ID := "TSTALIASID" |}.

Definition sample_answers : answers :=
  {| http := fun _ => Normal payload_sample;
     s3 := S3Stored;
     lex := Normal (Some [{| lex_contentType := Some "PlainText";
                             lex_content := Some "Hello." |}]);
     session_uuid := "0b0e4c52-4f0e-4d53-9a39-3f2a6a1c7e10";
     upload_uuid := "123e4567-e89b-42d3-a456-426614174000";
     image_open := fun b => Normal b |}.

Definition plant_jpg : uploaded_file :=
  {| name := "plant.jpg"; getvalue := [Byte.xff; Byte.xd8; Byte.xff] |}.

(** The attributes the chat handler hands to the engine. *)
Definition lex_attributes_of (s : session_state)
  : list (string * string) :=
  [("currentLocation", current_location s)].

(** Lex sends no message with empty content (the service documents a
    minimum length of one). *)
Definition lex_contents_nonempty (lex : lex_oracle) : Prop :=
  forall msgs m,
    lex = Normal (Some msgs) -> In m msgs -> lex_content m <> Some "".

(** The string begins with a dot. *)
Definition starts_dot (s : string) : bool :=
  match s with
  | String c _ => Ascii.eqb c "."
  | EmptyString => false
  end.

(** The exceptions Python raises when a lookup goes wrong. *)
Definition lookup_error (e : pyexn) : bool :=
  match e with
  | AttributeError | KeyError | IndexError | TypeError => true
  | _ => false
  end.

(** The payload is an object without a forecast series: the key is
    missing or its value is empty, null, zero or false. *)
Definition lacks_series (j : pyval) : bool :=
  match j with
  | PDict top =>
      match assoc "timeSeries" top with
      | Some series => negb (py_truthy series)
      | None => true
      end
  | _ => false
  end.

(** The message shown for a failure of the request, by exception class:
    every exception of requests, its own decode error included, reads the
    same. *)
Definition request_failure_message (e : pyexn) : string :=
  match e with
  | ConnectionError | Timeout | HTTPError | OtherRequestException _
  | RequestsJSONDecodeError =>
      "Could not reach weather service."
  | JSONDecodeError => "Error reading weather data."
  | _ => "Unexpected weather error."
  end.

(** The texts of the plain-text messages of a Lex response, in order. *)
Definition plain_texts (msgs : list lex_message) : list string :=
  flat_map
    (fun m =>
       if opt_eq_str (lex_contentType m) "PlainText"
       then match lex_content m with
            | Some c => [c]
            | None => []
            end
       else [])
    msgs.

(** Every plain-text message of the response has a content. *)
Definition plain_texts_complete (msgs : list lex_message) : bool :=
  forallb
    (fun m =>
       negb (opt_eq_str (lex_contentType m) "PlainText")
       || match lex_content m with Some _ => true | None => false end)
    msgs.

(** The calls and writes one run can make, as the log shows them: nothing;
    one weather fetch; a user turn and the engine call, followed by the
    assistant turn when the engine returned; one upload, maybe followed
    by one weather fetch. *)
Definition run_log_ok (l : list event) : bool :=
  match l with
  | [] => true
  | [WeatherFetched _] => true
  | [Appended u; LexCalled _ _ _ _ _] =>
      match msg_role u with user => true | assistant => false end
  | [Appended u; LexCalled _ _ _ _ _; Appended a] =>
      match msg_role u, msg_role a with
      | user, assistant => true
      | _, _ => false
      end
  | [UploadCalled _ _] => true
  | [UploadCalled _ _; WeatherFetched _] => true
  | _ => false
  end.

Definition is_lex_call (e : event) : bool :=
  match e with LexCalled _ _ _ _ _ => true | _ => false end.

(** The upload of [f] does not end with a usable key: PIL rejects the
    bytes, the uploader raises, reports failure, or returns an empty
    key. *)
Definition upload_fails (U : helper_module) (cfg : config) (o : answers)
    (f : uploaded_file) : Prop :=
  (exists e, image_open o (getvalue f) = Raised e)
  \/ (exists e,
        upload_to_s3 U o {| filename_attr := None; file_bytes := getvalue f |}
          (S3_BUCKET cfg) (Some (name f)) = Raised e)
  \/ upload_to_s3 U o {| filename_attr := None; file_bytes := getvalue f |}
       (S3_BUCKET cfg) (Some (name f)) = Normal None
  \/ upload_to_s3 U o {| filename_attr := None; file_bytes := getvalue f |}
       (S3_BUCKET cfg) (Some (name f)) = Normal (Some "").

(** *** The ways a run can go *)

Section Outcomes.

Variable U : helper_module.
Variable cfg : config.
Variable o : answers.

Definition upload_call (f : uploaded_file) : pyresult (option string) :=
  upload_to_s3 U o {| filename_attr := None; file_bytes := getvalue f |}
    (S3_BUCKET cfg) (Some (name f)).

(** What the upload block does to the session [s] and what it logs. *)
Inductive upload_outcome (uploaded : option uploaded_file)
    (s : session_state) : session_state -> list event -> Prop :=
| up_no_file :
    uploaded = None -> upload_outcome uploaded s s []
| up_not_a_picture (f : uploaded_file) (e : pyexn) :
    uploaded = Some f ->
    image_open o (getvalue f) = Raised e ->
    upload_outcome uploaded s (set_uploaded s None None) []
| up_failed (f : uploaded_file) (img : list Byte.byte) :
    uploaded = Some f ->
    image_open o (getvalue f) = Normal img ->
    (exists e, upload_call f = Raised e)
    \/ upload_call f = Normal None
    \/ upload_call f = Normal (Some "") ->
    upload_outcome uploaded s (set_uploaded s None None)
      [UploadCalled (S3_BUCKET cfg) (name f)]
| up_stored (f : uploaded_file) (img : list Byte.byte) (key : string) :
    uploaded = Some f ->
    image_open o (getvalue f) = Normal img ->
    upload_call f = Normal (Some key) ->
    key <> "" ->
    upload_outcome uploaded s
      (set_uploaded s (Some img) (Some (basename key)))
      [UploadCalled (S3_BUCKET cfg) (name f)].

(** What the last block does after the upload block left session [s] and
    log [l]. *)
Inductive weather_outcome (s : session_state) (l : list event)
  : flow unit * world -> Prop :=
| iw_present :
    py_eq_str (temp (current_weather s)) "N/A" = false ->
    weather_outcome s l (Continue tt, {| session := s; log := l |})
| iw_fetched (snapshot : weather) :
    py_eq_str (temp (current_weather s)) "N/A" = true ->
    get_weather_for_location U o (Some (current_location s))
    = Normal snapshot ->
    weather_outcome s l
      (Rerun,
       {| session := set_current_weather s snapshot;
          log := l ++ [WeatherFetched (current_location s)] |})
| iw_raised (e : pyexn) :
    py_eq_str (temp (current_weather s)) "N/A" = true ->
    get_weather_for_location U o (Some (current_location s)) = Raised e ->
    weather_outcome s l
      (Escaped e,
       {| session := s;
          log := l ++ [WeatherFetched (current_location s)] |}).

Definition lex_call (s : session_state) (text : string)
  : pyresult (list string) :=
  post_text_to_lex U o (LEX_BOT_ID cfg) (LEX_BOT_ALIAS_ID cfg)
    (lex_session_id s) text (Some (lex_attributes_of s)).

Definition lex_event (s : session_state) (text : string) : event :=
  LexCalled (LEX_BOT_ID cfg) (LEX_BOT_ALIAS_ID cfg) (lex_session_id s)
    text (lex_attributes_of s).

(** The select box shows the current location. *)
Definition box_unchanged (w : widgets) (s : session_state) : Prop :=
  picked_location w = None \/ picked_location w = Some (current_location s).

Definition chat_idle (w : widgets) : Prop :=
  chat_input w = None \/ chat_input w = Some "".

(** Every way one run of the script on session [s] can go. *)
Inductive run_outcome (w : widgets) (s : session_state)
  : flow unit * world -> Prop :=
| out_index_raised (e : pyexn) :
    index (current_location s) (AVAILABLE_LOCATIONS U) = Raised e ->
    run_outcome w s (Escaped e, {| session := s; log := [] |})
| out_location_changed (i : nat) (l : string) (snapshot : weather) :
    index (current_location s) (AVAILABLE_LOCATIONS U) = Normal i ->
    picked_location w = Some l ->
    l <> current_location s ->
    get_weather_for_location U o (Some l) = Normal snapshot ->
    run_outcome w s
      (Rerun,
       {| session := set_current_weather (set_current_location s l) snapshot;
          log := [WeatherFetched l] |})
| out_location_fetch_raised (i : nat) (l : string) (e : pyexn) :
    index (current_location s) (AVAILABLE_LOCATIONS U) = Normal i ->
    picked_location w = Some l ->
    l <> current_location s ->
    get_weather_for_location U o (Some l) = Raised e ->
    run_outcome w s
      (Escaped e,
       {| session := set_current_location s l;
          log := [WeatherFetched l] |})
| out_message_sent (i : nat) (text : string) (replies : list string) :
    index (current_location s) (AVAILABLE_LOCATIONS U) = Normal i ->
    box_unchanged w s ->
    chat_input w = Some text ->
    text <> "" ->
    lex_call s text = Normal replies ->
    let reply := join (newline ++ newline) replies in
    run_outcome w s
      (Rerun,
       {| session :=
            set_messages s
              (messages s ++ [user_turn text; assistant_turn reply]);
          log := [Appended (user_turn text); lex_event s text;
                  Appended (assistant_turn reply)] |})
| out_engine_raised (i : nat) (text : string) (e : pyexn) :
    index (current_location s) (AVAILABLE_LOCATIONS U) = Normal i ->
    box_unchanged w s ->
    chat_input w = Some text ->
    text <> "" ->
    lex_call s text = Raised e ->
    run_outcome w s
      (Escaped e,
       {| session := set_messages s (messages s ++ [user_turn text]);
          log := [Appended (user_turn text); lex_event s text] |})
| out_quiet (i : nat) (s' : session_state) (l : list event)
    (r : flow unit * world) :
    index (current_location s) (AVAILABLE_LOCATIONS U) = Normal i ->
    box_unchanged w s ->
    chat_idle w ->
    upload_outcome (file_uploader w) s s' l ->
    weather_outcome s' l r ->
    run_outcome w s r.

End Outcomes.

(** The chat text names none of the words the stub engine reacts to. *)
Definition plain_question (text : string) : bool :=
  let t := lower text in
  negb (contains "risk" t || contains "high" t || contains "filename" t
        || contains ".jpg" t || contains ".png" t).

(** Answers of a world in which the object store refuses the upload. *)
Definition answers_s3_down : answers :=
  {| http := http sample_answers;
     s3 := S3Raised (ClientError (Some "AccessDenied"));
     lex := lex sample_answers;
     session_uuid := session_uuid sample_answers;
     upload_uuid := upload_uuid sample_answers;
     image_open := image_open sample_answers |}.

(** Answers of a world in which the weather service times out. *)
Definition answers_smhi_down : answers :=
  {| http := fun _ => Raised Timeout;
     s3 := s3 sample_answers;
     lex := lex sample_answers;
     session_uuid := session_uuid sample_answers;
     upload_uuid := upload_uuid sample_answers;
     image_open := image_open sample_answers |}.

(** *** Joined replies, documented payloads and the last fetch *)

(** What follows the first reply in the assistant turn: each further
    reply after a blank line. *)
Fixpoint after_blank_lines (rest : list string) : string :=
  match rest with
  | [] => ""
  | r :: rest' => newline ++ newline ++ r ++ after_blank_lines rest'
  end.

(** Answers of a world in which Lex sends one plain-text message with an
    empty content. *)
Definition answers_lex_blank : answers :=
  {| http := http sample_answers;
     s3 := s3 sample_answers;
     lex := Normal (Some [{| lex_contentType := Some "PlainText";
                             lex_content := Some "" |}]);
     session_uuid := session_uuid sample_answers;
     upload_uuid := upload_uuid sample_answers;
     image_open := image_open sample_answers |}.

(** A payload as the weather service documents it, as far as the first
    forecast goes: an object whose ["timeSeries"] is a list that starts
    with an object, whose ["parameters"] is a list of objects, each with a
    string ["name"] and a non-empty list of numbers as ["values"]. *)
Definition well_formed_parameter (p : pyval) : bool :=
  match p with
  | PDict kv =>
      match assoc "name" kv, assoc "values" kv with
      | Some (PStr _), Some (PList (v :: vs)) => forallb is_number (v :: vs)
      | _, _ => false
      end
  | _ => false
  end.

Definition well_formed_payload (j : pyval) : bool :=
  match j with
  | PDict top =>
      match assoc "timeSeries" top with
      | Some (PList (PDict forecast :: _)) =>
          match assoc "parameters" forecast with
          | Some (PList ps) => forallb well_formed_parameter ps
          | _ => false
          end
      | _ => false
      end
  | _ => false
  end.

(** A malformed payload: the values of the temperature are a string. *)
Definition payload_values_as_text : pyval :=
  PDict
    [("timeSeries",
      PList [PDict [("parameters",
                     PList [PDict [("name", PStr "t");
                                   ("values", PStr "xy")]])]])].

(** The location of the last weather fetch a log shows, if it shows
    one. *)
Fixpoint fetch_in_log (l : list event) : option string :=
  match l with
  | [] => None
  | e :: rest =>
      match fetch_in_log rest with
      | Some loc => Some loc
      | None => match e with
                | WeatherFetched loc => Some loc
                | _ => None
                end
      end
  end.

(** The last weather fetch of a connection -- the answers of the run that
    made it and the location it was made for -- after a run with answers
    [o] and log [l]. *)
Definition note_fetch (last : option (answers * string)) (o : answers)
    (l : list event) : option (answers * string) :=
  match fetch_in_log l with
  | Some loc => Some (o, loc)
  | None => last
  end.

(** The reachable states, each with the last weather fetch the connection
    made on the way to it. *)
Inductive reachable_with_fetch (U : helper_module) (cfg : config)
  : session_state -> option (answers * string) -> Prop :=
| rwf_first (o : answers) (w : widgets) :
    offered U w ->
    reachable_with_fetch U cfg (state_after U cfg o w None)
      (note_fetch None o (log (snd (run U cfg o w None))))
| rwf_next (o : answers) (w : widgets) (s : session_state)
    (last : option (answers * string)) :
    reachable_with_fetch U cfg s last ->
    offered U w ->
    reachable_with_fetch U cfg (state_after U cfg o w (Some s))
      (note_fetch last o (log (snd (run U cfg o w (Some s))))).

(** The stored weather is what the last fetch returned, and that fetch
    was made for the location the session has now; without any fetch the
    weather is the placeholder of a new session. *)
Definition weather_of_last_fetch (U : helper_module) (s : session_state)
    (last : option (answers * string)) : Prop :=
  match last with
  | None => current_weather s = unavailable
  | Some (o, loc) =>
      loc = current_location s
      /\ get_weather_for_location U o (Some loc)
         = Normal (current_weather s)
  end.

(** * Properties *)

(** ** The location registry (aws_utils.get_coordinates) *)

Section Registry.

Import aws_utils.

Lemma lower_char_upper_char (c : ascii) :
  lower_char (upper_char c) = lower_char c.
Proof.
  destruct c as [b0 b1 b2 b3 b4 b5 b6 b7];
    destruct b0, b1, b2, b3, b4, b5, b6, b7; reflexivity.
Qed.

Lemma lower_char_idem (c : ascii) :
  lower_char (lower_char c) = lower_char c.
Proof.
  destruct c as [b0 b1 b2 b3 b4 b5 b6 b7];
    destruct b0, b1, b2, b3, b4, b5, b6, b7; reflexivity.
Qed.

Lemma case_variant_lower (s t : string) :
  case_variant s t = true -> lower s = lower t.
Proof.
  revert t; induction s as [|a s IH]; intros [|b t]; simpl;
    try discriminate; auto.
  intros H. apply andb_true_iff in H as [Hc Hr].
  rewrite (IH _ Hr). f_equal.
  apply orb_true_iff in Hc as [Hc|Hc];
    [apply orb_true_iff in Hc as [Hc|Hc]|];
    apply Ascii.eqb_eq in Hc; subst a;
    auto using lower_char_upper_char, lower_char_idem.
Qed.

Lemma case_variant_truthy (s t : string) :
  case_variant s t = true -> truthy s = truthy t.
Proof. destruct s, t; simpl; auto; discriminate. Qed.

(** Case variations of one spelling always resolve alike, registered or
    not. *)
Lemma get_coordinates_case_variant (s t : string) :
  case_variant s t = true ->
  get_coordinates (Some s) = get_coordinates (Some t).
Proof.
  intros H. unfold get_coordinates.
  now rewrite (case_variant_truthy _ _ H), (case_variant_lower _ _ H).
Qed.

Lemma get_coordinates_registered (n : string) (c : coords) :
  In (n, c) LOCATION_COORDS ->
  get_coordinates (Some n) = c /\ get_coordinates (Some (deaccent n)) = c.
Proof.
  unfold LOCATION_COORDS; simpl.
  intros H.
  repeat (destruct H as [H|H];
          [injection H as <- <-; split; reflexivity|]).
  contradiction.
Qed.

End Registry.

(** C7: for every registered location name, [get_coordinates] gives any
    upper/lower case variation of the name the coordinates the registry
    lists for the name, and gives the same coordinates to case variations
    of its de-accented spelling (malmo for malm-o-umlaut). *)
Theorem get_coordinates_case_and_accent_insensitive :
  forall (n s : string) (c : coords),
    In (n, c) aws_utils.LOCATION_COORDS ->
    case_variant s n = true \/ case_variant s (deaccent n) = true ->
    aws_utils.get_coordinates (Some s) = c.
Proof.
  intros n s c Hin [Hv|Hv];
    rewrite (get_coordinates_case_variant _ _ Hv);
    apply (get_coordinates_registered n c Hin).
Qed.

Lemma get_coordinates_case_and_accent_insensitive_witness :
  aws_utils.get_coordinates (Some ("MaLM" ++ lat1 214)) = (55.60, 13.00)%Q
  /\ aws_utils.get_coordinates (Some "MALMO") = (55.60, 13.00)%Q.
Proof.
  split.
  - apply (get_coordinates_case_and_accent_insensitive
             ("malm" ++ lat1 246) ("MaLM" ++ lat1 214) (55.60, 13.00)%Q).
    + simpl. right. right. left. reflexivity.
    + left. reflexivity.
  - apply (get_coordinates_case_and_accent_insensitive
             ("malm" ++ lat1 246) "MALMO" (55.60, 13.00)%Q).
    + simpl. right. right. left. reflexivity.
    + right. reflexivity.
Defined.

(** ** The weather fetch (get_weather_for_location) *)

Section Weather.

Import aws_utils.

Lemma weather_error_message_nonempty (e : pyexn) :
  weather_error_message e <> "".
Proof.
  unfold weather_error_message.
  destruct (is_RequestException e); [discriminate|].
  destruct (is_JSONDecodeError e); discriminate.
Qed.

Lemma set_error_unavailable (msg : string) :
  msg <> "" ->
  has_error (set_error unavailable msg)
  /\ all_unavailable (set_error unavailable msg).
Proof.
  intros Hmsg. split.
  - exists msg. split; [reflexivity|assumption].
  - repeat split.
Qed.

(** The function always returns a snapshot. *)
Lemma get_weather_for_location_returns (http : http_oracle)
    (location_name : option string) :
  exists w, get_weather_for_location http location_name = Normal w.
Proof.
  unfold get_weather_for_location.
  destruct (fetch_and_extract http (get_coordinates location_name));
    eauto.
Qed.

(** A payload without forecast series is answered by the format error. *)
Lemma extract_no_series (j series : pyval) :
  py_get j "timeSeries" = Normal series ->
  py_truthy series = false ->
  extract j = Normal (set_error unavailable "SMHI API data format error.").
Proof.
  intros Hget Hfalsy. unfold extract. rewrite Hget. simpl.
  now rewrite Hfalsy.
Qed.

(** The comprehension raises as soon as one entry is not a parameter. *)
Lemma build_parameters_raises (items : list pyval) :
  forallb parameter_ok items = false ->
  exists e, build_parameters items = Raised e.
Proof.
  induction items as [|p rest IH]; [discriminate|].
  cbn [forallb build_parameters]. intros H.
  destruct p as [| | | | |kv]; try (eexists; reflexivity).
  cbn [parameter_ok py_getitem] in *.
  destruct (assoc "name" kv) as [nm|]; [|eexists; reflexivity].
  destruct (assoc "values" kv) as [vals|]; [|eexists; reflexivity].
  cbn [pybind].
  destruct vals as [| | |[|c s]|[|v l]|d];
    try (eexists; reflexivity);
    cbn [py_getitem0 pybind has_first] in *;
    (destruct nm; cbn [py_hash pybind hashable andb] in *;
     try (eexists; reflexivity);
     destruct (IH H) as [e ->]; eexists; reflexivity).
Qed.

Lemma build_parameters_returns (items : list pyval) :
  forallb parameter_ok items = true ->
  exists stores, build_parameters items = Normal stores.
Proof.
  induction items as [|p rest IH]; [now exists []|].
  cbn [forallb build_parameters]. intros H.
  apply andb_true_iff in H as [Hp Hrest].
  destruct (IH Hrest) as [stores Hs].
  destruct p as [| | | | |kv]; try discriminate.
  cbn [parameter_ok py_getitem] in *.
  destruct (assoc "name" kv) as [nm|]; [|discriminate].
  destruct (assoc "values" kv) as [vals|]; [|discriminate].
  apply andb_true_iff in Hp as [Hh Hf]. cbn [pybind].
  destruct vals as [| | |[|c s]|[|v l]|d]; try discriminate;
    (destruct nm; try discriminate;
     cbn [py_getitem0 pybind py_hash]; rewrite Hs; eexists; reflexivity).
Qed.

(** A payload of another shape makes the extraction raise or report the
    format error. *)
Lemma extract_not_walkable (j : pyval) :
  walkable j = false ->
  (exists e, extract j = Raised e)
  \/ extract j = Normal (set_error unavailable "SMHI API data format error.").
Proof.
  intros Hw. unfold extract.
  destruct j as [| | | | |top]; try (left; eexists; reflexivity).
  cbn [py_get pybind py_getitem]. cbn [walkable] in Hw.
  destruct (assoc "timeSeries" top) as [series|]; [|right; reflexivity].
  destruct (py_truthy series) eqn:Ht; cbn [negb pybind];
    [left|right; reflexivity].
  destruct series as [|b|q|[|c s]|[|x l]|kv];
    try discriminate Ht; try (eexists; reflexivity).
  cbn [py_getitem0 pybind].
  destruct x as [| | | | |forecast]; try (eexists; reflexivity).
  cbn [py_getitem].
  destruct (assoc "parameters" forecast) as [ps|]; [|eexists; reflexivity].
  cbn [pybind]. cbn [parameters_ok] in Hw.
  destruct ps as [| | |[|c s]|items|[|a kv]];
    try discriminate Hw; try (eexists; reflexivity).
  cbn [py_iter pybind].
  destruct (build_parameters_raises items Hw) as [e ->].
  eexists. reflexivity.
Qed.

(** A payload of that shape is read without error. *)
Lemma extract_walkable (j : pyval) :
  walkable j = true -> exists w, extract j = Normal w /\ error w = None.
Proof.
  intros Hw. unfold extract.
  destruct j as [| | | | |top]; try discriminate.
  cbn [py_get pybind py_getitem]. cbn [walkable] in Hw.
  destruct (assoc "timeSeries" top) as [[| | | |[|[| | | | |forecast] l]|]|];
    try discriminate.
  cbn [py_truthy negb pybind py_getitem0 py_getitem].
  destruct (assoc "parameters" forecast) as [ps|]; [|discriminate].
  cbn [pybind]. cbn [parameters_ok] in Hw.
  destruct ps as [| | |[|c s]|items|[|a kv]]; try discriminate;
    try (eexists; split; reflexivity).
  cbn [py_iter pybind].
  destruct (build_parameters_returns items Hw) as [stores ->].
  eexists. split; reflexivity.
Qed.

Lemma get_weather_for_location_failed (http : http_oracle)
    (location_name : option string) (w : weather) :
  get_weather_for_location http location_name = Normal w ->
  fetch_failed http location_name ->
  has_error w /\ all_unavailable w.
Proof.
  unfold get_weather_for_location, fetch_and_extract, fetch_failed.
  intros Hw [[e He]|(j & Hj & Hshape)].
  - rewrite He in Hw. simpl in Hw. injection Hw as <-.
    apply set_error_unavailable, weather_error_message_nonempty.
  - rewrite Hj in Hw. cbn [pybind] in Hw.
    destruct (extract_not_walkable j Hshape) as [[e He]|He];
      rewrite He in Hw; injection Hw as <-.
    + apply set_error_unavailable, weather_error_message_nonempty.
    + apply set_error_unavailable. discriminate.
Qed.

(** So the snapshots without error are exactly those of the payloads the
    extraction can walk. *)
Lemma no_error_iff_walkable (http : http_oracle)
    (location_name : option string) (w : weather) :
  get_weather_for_location http location_name = Normal w ->
  (error w = None <->
   exists j, http (smhi_request_for (get_coordinates location_name))
             = Normal j /\ walkable j = true).
Proof.
  intros Hw. split.
  - intros Herr.
    destruct (http (smhi_request_for (get_coordinates location_name)))
      as [j|e] eqn:Hj.
    + exists j. split; [reflexivity|].
      destruct (walkable j) eqn:Hshape; [reflexivity|].
      destruct (get_weather_for_location_failed http location_name w Hw)
        as [(msg & Hmsg & _) _]; [|congruence].
      right. now exists j.
    + destruct (get_weather_for_location_failed http location_name w Hw)
        as [(msg & Hmsg & _) _]; [|congruence].
      left. now exists e.
  - intros (j & Hj & Hshape).
    unfold get_weather_for_location, fetch_and_extract in Hw.
    rewrite Hj in Hw. cbn [pybind] in Hw.
    destruct (extract_walkable j Hshape) as (w' & Hx & Herr).
    rewrite Hx in Hw. now injection Hw as <-.
Qed.

(** Shapes of payload on which the extraction raises. *)
Lemma extract_not_a_dict (j : pyval) :
  (forall kv, j <> PDict kv) -> extract j = Raised AttributeError.
Proof. destruct j; intros H; try reflexivity. now destruct (H kv). Qed.

Lemma extract_forecast_without_parameters (rest : list pyval) :
  extract (PDict [("timeSeries", PList (PDict [] :: rest))])
  = Raised KeyError.
Proof. reflexivity. Qed.

Lemma extract_parameter_without_values (rest : list pyval) :
  extract
    (PDict [("timeSeries",
             PList [PDict [("parameters",
                            PList (PDict [("name", PStr "t")] :: rest))]])])
  = Raised KeyError.
Proof. reflexivity. Qed.

(** A payload as the service documents it can be walked. *)
Lemma well_formed_parameters_ok (ps : list pyval) :
  forallb well_formed_parameter ps = true ->
  forallb parameter_ok ps = true.
Proof.
  induction ps as [|p ps IH]; [reflexivity|].
  cbn [forallb]. intros H. apply andb_true_iff in H as [Hp Hps].
  rewrite (IH Hps), andb_true_r.
  destruct p as [| | | | |kv]; try discriminate.
  cbn [well_formed_parameter parameter_ok] in *.
  destruct (assoc "name" kv) as [[| | |nm| |]|]; try discriminate.
  destruct (assoc "values" kv) as [[| | | |[|v vs]|]|]; try discriminate.
  reflexivity.
Qed.

Lemma well_formed_walkable (j : pyval) :
  well_formed_payload j = true -> walkable j = true.
Proof.
  destruct j as [| | | | |top]; try discriminate.
  cbn [well_formed_payload walkable].
  destruct (assoc "timeSeries" top)
    as [[| | | |[|[| | | | |forecast] l]|]|]; try discriminate.
  destruct (assoc "parameters" forecast) as [[| | | |ps|]|];
    try discriminate.
  cbn [parameters_ok]. apply well_formed_parameters_ok.
Qed.

End Weather.

(** C5, refuted as stated: the service answers with a malformed payload
    -- the values of the temperature are the string "xy" where a list of
    numbers belongs -- and the snapshot carries no error and the reading
    "x", neither an error message nor "N/A". *)
Lemma malformed_payload_not_reported :
  well_formed_payload payload_values_as_text = false
  /\ exists w,
       aws_utils.get_weather_for_location
         (fun _ => Normal payload_values_as_text) (Some "uppsala")
       = Normal w
       /\ error w = None
       /\ temp w = PStr "x"
       /\ temp w <> NA.
Proof.
  split; [reflexivity|].
  eexists. split; [reflexivity|]. repeat split. discriminate.
Qed.

(** C5, amended: [get_weather_for_location] returns a snapshot for every
    location argument and every answer of the network, and never raises.
    When the request raises (no connection, timeout, status outside 2xx,
    undecodable body) or the payload has a shape the extraction cannot
    walk, the snapshot carries a non-empty error message and all three
    readings are "N/A".  In every other case -- among them malformed
    payloads the extraction can still walk -- the snapshot carries no
    error; a payload as the service documents it is always such a
    case. *)
Theorem get_weather_for_location_total :
  forall (http : http_oracle) (location_name : option string),
    exists w,
      aws_utils.get_weather_for_location http location_name = Normal w
      /\ (fetch_failed http location_name ->
          has_error w /\ all_unavailable w)
      /\ (~ fetch_failed http location_name -> error w = None)
      /\ (forall j,
            http (aws_utils.smhi_request_for
                    (aws_utils.get_coordinates location_name)) = Normal j ->
            well_formed_payload j = true -> error w = None).
Proof.
  intros http location_name.
  destruct (get_weather_for_location_returns http location_name) as [w Hw].
  exists w. split; [assumption|]. split; [|split].
  - now apply get_weather_for_location_failed.
  - intros Hok.
    apply (no_error_iff_walkable http location_name w Hw).
    destruct (http (aws_utils.smhi_request_for
                      (aws_utils.get_coordinates location_name)))
      as [j|e] eqn:Hj.
    + exists j. split; [reflexivity|].
      destruct (walkable j) eqn:Hshape; [reflexivity|].
      exfalso. apply Hok. unfold fetch_failed. cbv zeta.
      right. exists j. now split.
    + exfalso. apply Hok. unfold fetch_failed. cbv zeta.
      left. now exists e.
  - intros j Hj Hwf.
    apply (no_error_iff_walkable http location_name w Hw).
    exists j. split; [exact Hj|]. now apply well_formed_walkable.
Qed.

Lemma get_weather_for_location_total_witness :
  exists w,
    aws_utils.get_weather_for_location (fun _ => Raised Timeout)
      (Some "lund") = Normal w
    /\ has_error w /\ all_unavailable w.
Proof.
  destruct (get_weather_for_location_total (fun _ => Raised Timeout)
              (Some "lund")) as [w [Hw [Hfail _]]].
  exists w. split; [exact Hw|].
  apply Hfail. left. exists Timeout. reflexivity.
Defined.

(** ** What a fetch without error reads from the payload *)

Section Readings.

Import aws_utils.

Lemma build_parameters_stored (k : string) (items : list pyval) :
  forall stores,
    build_parameters items = Normal stores ->
    match stored k stores with
    | Some v => exists p, In p items /\ supplies k v p
    | None => forall p v', In p items -> ~ supplies k v' p
    end.
Proof.
  induction items as [|param rest IH]; intros stores Hb; simpl in Hb.
  - injection Hb as <-. simpl. intros p v' [].
  - destruct (py_getitem param "name") as [nm|] eqn:Hn; [|discriminate].
    destruct (py_getitem param "values") as [vals|] eqn:Hv; [|discriminate].
    simpl in Hb.
    destruct (py_getitem0 vals) as [v0|] eqn:H0; [|discriminate].
    destruct (py_hash nm) as [[]|]; [|discriminate].
    simpl in Hb.
    destruct (build_parameters rest) as [stores'|]; [|discriminate].
    injection Hb as <-. specialize (IH stores' eq_refl). simpl.
    destruct (stored k stores') as [v'|].
    + destruct IH as (p & Hp & Hs). exists p. split; [now right|exact Hs].
    + assert (Hother : nm <> PStr k ->
                forall p v', param = p \/ In p rest -> ~ supplies k v' p).
      { intros Hne p v' [<-|Hin].
        - intros [Hname _]. rewrite Hn in Hname.
          injection Hname as Hname. contradiction.
        - now apply IH. }
      destruct nm as [| | |k'| |];
        try (apply Hother; discriminate).
      destruct (String.eqb k k') eqn:Hk.
      * apply String.eqb_eq in Hk. subst k'.
        exists param. split; [now left|]. split; [exact Hn|].
        exists vals. now split.
      * apply Hother. intros Heq. injection Heq as ->.
        now rewrite String.eqb_refl in Hk.
Qed.

Lemma build_parameters_chars (s : string) (stores : list (pyval * pyval)) :
  build_parameters (chars s) = Normal stores -> s = "" /\ stores = [].
Proof.
  destruct s; simpl; [|discriminate].
  intros H. now injection H as <-.
Qed.

Lemma build_parameters_keys (kv : list (string * pyval))
    (stores : list (pyval * pyval)) :
  build_parameters (map (fun p => PStr (fst p)) kv) = Normal stores ->
  kv = [] /\ stores = [].
Proof.
  destruct kv; simpl; [|discriminate].
  intros H. now injection H as <-.
Qed.

(** When the extraction ends without error, the readings come out of the
    stores built from the parameters of the first forecast. *)
Lemma extract_without_error (j : pyval) (w : weather) :
  extract j = Normal w ->
  error w = None ->
  exists stores,
    build_parameters (first_forecast_parameters j) = Normal stores
    /\ temp w = parameters_get stores "t" NA
    /\ humidity w = parameters_get stores "r" NA
    /\ precip w = parameters_get stores "pmean" NA.
Proof.
  unfold extract. intros Hx Herr.
  destruct j as [| | | | |top]; try discriminate. simpl in Hx.
  destruct (assoc "timeSeries" top) as [series|] eqn:Hts; simpl in Hx;
    [|injection Hx as <-; discriminate].
  destruct (py_truthy series); simpl in Hx;
    [|injection Hx as <-; discriminate].
  unfold first_forecast_parameters. rewrite Hts.
  destruct series as [| | |[|c s]|[|x l]|]; try discriminate.
  simpl in Hx.
  destruct x as [| | | | |forecast]; try discriminate. simpl in Hx.
  destruct (assoc "parameters" forecast) as [params|]; [|discriminate].
  simpl in Hx.
  destruct params as [| | |s|ps|kv]; try discriminate; simpl in Hx.
  - destruct (build_parameters (chars s)) as [stores|] eqn:Hb;
      [|discriminate].
    destruct (build_parameters_chars _ _ Hb) as [-> ->].
    injection Hx as <-. exists []. now repeat split.
  - destruct (build_parameters ps) as [stores|]; [|discriminate].
    injection Hx as <-. exists stores. now repeat split.
  - destruct (build_parameters (map (fun p => PStr (fst p)) kv))
      as [stores|] eqn:Hb; [|discriminate].
    destruct (build_parameters_keys _ _ Hb) as [-> ->].
    injection Hx as <-. exists []. now repeat split.
Qed.

Lemma parameters_get_reading_of (k : string) (j : pyval)
    (stores : list (pyval * pyval)) :
  build_parameters (first_forecast_parameters j) = Normal stores ->
  reading_of k (parameters_get stores k NA) j.
Proof.
  intros Hb. pose proof (build_parameters_stored k _ _ Hb) as H.
  unfold parameters_get, reading_of.
  destruct (stored k stores); [now left|right; now split].
Qed.

End Readings.

(** C9, refuted as stated: the service answers with status 2xx and a body
    that parses and has a forecast series, the snapshot carries no error,
    and yet all three readings are "N/A". *)
Lemma successful_fetch_not_numeric :
  exists w,
    aws_utils.get_weather_for_location
      (fun _ => Normal payload_without_parameters) (Some "uppsala")
    = Normal w
    /\ error w = None
    /\ is_number (temp w) = false
    /\ is_number (humidity w) = false
    /\ is_number (precip w) = false.
Proof. eexists. split; [reflexivity|]. now repeat split. Qed.

(** C9, amended: when the fetch completes without error, each reading is
    the first value the first forecast lists for its parameter (t, r,
    pmean), so it is a number when the service lists a number there, and
    it is "N/A" when the first forecast lists no such parameter. *)
Theorem successful_fetch_readings :
  forall (http : http_oracle) (location_name : option string)
         (j : pyval) (w : weather),
    http (aws_utils.smhi_request_for
            (aws_utils.get_coordinates location_name)) = Normal j ->
    aws_utils.get_weather_for_location http location_name = Normal w ->
    error w = None ->
    reading_of "t" (temp w) j
    /\ reading_of "r" (humidity w) j
    /\ reading_of "pmean" (precip w) j.
Proof.
  intros http location_name j w Hj Hw Herr.
  unfold aws_utils.get_weather_for_location, aws_utils.fetch_and_extract
    in Hw.
  rewrite Hj in Hw. simpl in Hw.
  destruct (aws_utils.extract j) as [w'|e] eqn:Hx.
  - injection Hw as ->.
    destruct (extract_without_error j w Hx Herr)
      as (stores & Hb & -> & -> & ->).
    repeat split; now apply parameters_get_reading_of.
  - injection Hw as <-. discriminate.
Qed.

Lemma successful_fetch_readings_witness :
  reading_of "t" (PNum 12.3%Q) payload_sample
  /\ reading_of "r" (PNum 64%Q) payload_sample
  /\ reading_of "pmean" (PNum 0.0%Q) payload_sample.
Proof.
  apply (successful_fetch_readings
           (fun _ => Normal payload_sample) (Some "uppsala") payload_sample
           {| temp := PNum 12.3%Q; humidity := PNum 64%Q;
              precip := PNum 0.0%Q; error := None |});
    reflexivity.
Defined.

(** The numeric case of the same fact: a reading is a number as soon as
    the first forecast names its parameter and lists only numbers for
    it. *)
Corollary reading_of_number (k : string) (v j : pyval) :
  reading_of k v j ->
  (exists p v', In p (first_forecast_parameters j) /\ supplies k v' p) ->
  (forall p v', In p (first_forecast_parameters j) -> supplies k v' p ->
                is_number v' = true) ->
  is_number v = true.
Proof.
  intros [(p & Hp & Hs)|[_ Hnone]] (p' & v' & Hp' & Hs') Hnum.
  - exact (Hnum p v Hp Hs).
  - destruct (Hnone p' v' Hp' Hs').
Qed.

(** ** The conversational engine (post_text_to_lex) *)

Section Lex.

Import aws_utils.

Variables bot_id alias_id session_id input_text : string.
Variable attrs : option (list (string * string)).

Lemma lex_try_body_nonempty (lex : lex_oracle) (replies : list string) :
  lex_try_body lex = Normal replies -> 1 <= List.length replies.
Proof.
  unfold lex_try_body. destruct lex as [response|e]; [|discriminate].
  simpl.
  destruct (match response with
            | Some msgs => collect_plain_text msgs
            | None => Normal []
            end) as [[|m ms]|e]; simpl; try discriminate;
    intros H; injection H as <-; simpl; lia.
Qed.

Lemma post_text_to_lex_raised (lex : lex_oracle) (e : pyexn) :
  lex_try_body lex = Raised e ->
  post_text_to_lex lex bot_id alias_id session_id input_text attrs
  = Normal [handler_reply e].
Proof.
  unfold post_text_to_lex, handler_reply, category. intros ->.
  destruct e; try reflexivity.
  destruct (opt_eq_str code "AccessDeniedException"); [reflexivity|].
  destruct (opt_eq_str code "ResourceNotFoundException"); reflexivity.
Qed.

Lemma post_text_to_lex_returns (lex : lex_oracle) :
  exists replies,
    post_text_to_lex lex bot_id alias_id session_id input_text attrs
    = Normal replies
    /\ 1 <= List.length replies.
Proof.
  destruct (lex_try_body lex) as [replies|e] eqn:Hbody.
  - exists replies. split; [|now apply lex_try_body_nonempty with lex].
    unfold post_text_to_lex. now rewrite Hbody.
  - exists [handler_reply e]. split; [now apply post_text_to_lex_raised|].
    simpl. lia.
Qed.

Lemma generic_reply_differs (e : pyexn) :
  category e = Generic ->
  handler_reply e <> access_denied_reply
  /\ handler_reply e <> not_found_reply.
Proof.
  unfold handler_reply. intros ->.
  destruct e; split; discriminate.
Qed.

End Lex.

(** C6, refuted as stated: no assignment of one fixed reply to each of the
    three categories describes the function, because two failures of the
    generic category are answered differently. *)
Lemma generic_fallback_not_fixed : ~ fixed_fallback_per_category.
Proof.
  intros (fallback & _ & H).
  pose proof (H (ClientError (Some "ThrottlingException"))
                "bot" "alias" "st-session-1" "hello" None) as H1.
  pose proof (H OtherException
                "bot" "alias" "st-session-1" "hello" None) as H2.
  vm_compute in H1, H2.
  rewrite <- H2 in H1. discriminate.
Qed.

(** C6, amended: [post_text_to_lex] always returns at least one reply and
    never raises.  An authorization failure and a bot-or-alias-not-found
    failure are each answered by their own fixed reply.  Any other client
    error is answered by "An error occurred communicating with the bot
    (<code>).", which quotes its error code ("None" when it has none);
    any other exception is answered by "An unexpected error occurred.";
    neither of these equals the two fixed replies. *)
Theorem post_text_to_lex_fallbacks :
  forall (lex : lex_oracle) (bot_id alias_id session_id input_text : string)
         (attrs : option (list (string * string))),
    exists replies,
      aws_utils.post_text_to_lex lex bot_id alias_id session_id input_text
        attrs = Normal replies
      /\ 1 <= List.length replies
      /\ access_denied_reply <> not_found_reply
      /\ forall e, lex = Raised e ->
           match category e with
           | Authorization => replies = [access_denied_reply]
           | ConfigurationNotFound => replies = [not_found_reply]
           | Generic =>
               replies
               = [match e with
                  | ClientError (Some code) =>
                      "An error occurred communicating with the bot ("
                      ++ code ++ ")."
                  | ClientError None =>
                      "An error occurred communicating with the bot (None)."
                  | _ => "An unexpected error occurred."
                  end]
               /\ replies <> [access_denied_reply]
               /\ replies <> [not_found_reply]
           end.
Proof.
  intros lex bot_id alias_id session_id input_text attrs.
  destruct (post_text_to_lex_returns bot_id alias_id session_id input_text
              attrs lex) as (replies & Hr & Hlen).
  exists replies. repeat split; try assumption; try discriminate.
  intros e ->.
  rewrite (post_text_to_lex_raised bot_id alias_id session_id input_text
             attrs (Raised e) e eq_refl) in Hr.
  injection Hr as <-.
  pose proof (generic_reply_differs e) as Hd.
  unfold handler_reply in *.
  destruct (category e); try reflexivity.
  destruct (Hd eq_refl) as [Ha Hn].
  repeat split; try congruence.
  destruct e as [| | | | | | | | | | |[code|]|]; reflexivity.
Qed.

Lemma post_text_to_lex_fallbacks_witness :
  aws_utils.post_text_to_lex
    (Raised (ClientError (Some "ThrottlingException")))
    "bot" "alias" "st-session-1" "hello" None
  = Normal
      ["An error occurred communicating with the bot (ThrottlingException)."].
Proof.
  destruct (post_text_to_lex_fallbacks
              (Raised (ClientError (Some "ThrottlingException")))
              "bot" "alias" "st-session-1" "hello" None)
    as (replies & Hr & _ & _ & Hcat).
  rewrite Hr. f_equal.
  exact (proj1 (Hcat (ClientError (Some "ThrottlingException")) eq_refl)).
Defined.

(** ** The helper modules seen from the script *)

Lemma get_weather_for_location_snapshot (http : http_oracle)
    (location_name : option string) :
  aws_utils.get_weather_for_location http location_name
  = Normal (snapshot_of_answer
              (http (aws_utils.smhi_request_for
                       (aws_utils.get_coordinates location_name)))).
Proof.
  unfold aws_utils.get_weather_for_location, aws_utils.fetch_and_extract,
    snapshot_of_answer.
  now destruct (_ <- http _ ;; _).
Qed.

Lemma stub_post_text_to_lex_returns
    (bot_id alias_id session_id input_text : string)
    (attrs : option (list (string * string))) :
  exists first rest,
    aws_utils_stub.post_text_to_lex bot_id alias_id session_id input_text
      attrs = Normal (first :: rest)
    /\ first <> "".
Proof.
  unfold aws_utils_stub.post_text_to_lex.
  destruct (_ || _).
  - do 2 eexists. split; [reflexivity|discriminate].
  - destruct (_ || _ || _).
    + do 2 eexists. split; [reflexivity|discriminate].
    + do 2 eexists. split; [reflexivity|].
      destruct attrs as [[|a l]|]; try discriminate.
      destruct (assoc "currentLocation" (a :: l)); discriminate.
Qed.

Lemma importable_weather (U : helper_module) (o : answers) (l : string) :
  importable U ->
  exists w, get_weather_for_location U o (Some l) = Normal w.
Proof.
  intros [->| ->]; cbn [get_weather_for_location live stub].
  - apply get_weather_for_location_returns.
  - eexists. reflexivity.
Qed.

Lemma importable_lex (U : helper_module) (o : answers)
    (bot_id alias_id session_id input_text : string)
    (attrs : option (list (string * string))) :
  importable U ->
  exists replies,
    post_text_to_lex U o bot_id alias_id session_id input_text attrs
    = Normal replies.
Proof.
  intros [->| ->]; cbn [post_text_to_lex live stub].
  - destruct (post_text_to_lex_returns bot_id alias_id session_id
                input_text attrs (lex o)) as (r & Hr & _).
    now exists r.
  - destruct (stub_post_text_to_lex_returns bot_id alias_id session_id
                input_text attrs) as (a & r & Hr & _).
    now exists (a :: r).
Qed.

Lemma index_of_member (x : string) (xs : list string) :
  In x xs -> exists i, index x xs = Normal i.
Proof.
  induction xs as [|y r IH]; simpl; [intros []|].
  intros H. destruct (String.eqb x y) eqn:Hxy; [now exists 0|].
  destruct H as [->|H]; [now rewrite String.eqb_refl in Hxy|].
  destruct (IH H) as [i ->]. now exists (S i).
Qed.

Lemma join_nonempty (sep first : string) (rest : list string) :
  first <> "" -> join sep (first :: rest) <> "".
Proof.
  intros H. simpl. destruct rest; [assumption|].
  destruct first; [contradiction|discriminate].
Qed.

Lemma truthy_nonempty (s : string) : s <> "" -> truthy s = true.
Proof. destruct s; [contradiction|reflexivity]. Qed.

(** ** A run in which the user changes the location *)

Section ChangeLocation.

Variable U : helper_module.
Variable cfg : config.
Variable o : answers.

Lemma header_block_changes (s : session_state) (new : string)
    (snapshot : weather) (l0 : list event) :
  In (current_location s) (AVAILABLE_LOCATIONS U) ->
  new <> current_location s ->
  get_weather_for_location U o (Some new) = Normal snapshot ->
  header_block U o (Some new) {| session := s; log := l0 |}
  = (Rerun,
     {| session := set_current_weather (set_current_location s new) snapshot;
        log := l0 ++ [WeatherFetched new] |}).
Proof.
  intros Hcur Hnew Hw.
  destruct (index_of_member _ _ Hcur) as [i Hi].
  apply String.eqb_neq in Hnew.
  unfold header_block, bind, get_session, call, update_weather, emit,
    put_session, rerun; simpl.
  rewrite Hi, Hnew; simpl. now rewrite Hw.
Qed.

Lemma header_block_stays (s : session_state) (picked : option string)
    (l0 : list event) :
  In (current_location s) (AVAILABLE_LOCATIONS U) ->
  picked = None \/ picked = Some (current_location s) ->
  header_block U o picked {| session := s; log := l0 |}
  = (Continue tt, {| session := s; log := l0 |}).
Proof.
  intros Hcur Hp.
  destruct (index_of_member _ _ Hcur) as [i Hi].
  unfold header_block, bind, get_session, call, ret; simpl.
  rewrite Hi.
  destruct Hp as [->| ->]; now rewrite String.eqb_refl.
Qed.

End ChangeLocation.

(** C8: in a run where the user picks a registered location other than
    the current one, whatever the other widgets hold, the script ends by
    its rerun without an exception; the location is the new name, the
    weather is the snapshot the fetcher returned for that name (a snapshot
    in every case, with or without error), and the session id, the
    transcript and the upload record are as before. *)
Theorem change_location_effect :
  forall (U : helper_module) (cfg : config) (o : answers) (w : widgets)
         (s : session_state) (new : string),
    importable U ->
    In (current_location s) (AVAILABLE_LOCATIONS U) ->
    In new (AVAILABLE_LOCATIONS U) ->
    new <> current_location s ->
    picked_location w = Some new ->
    exists snapshot,
      get_weather_for_location U o (Some new) = Normal snapshot
      /\ fst (run U cfg o w (Some s)) = Rerun
      /\ log (snd (run U cfg o w (Some s))) = [WeatherFetched new]
      /\ let s' := state_after U cfg o w (Some s) in
         current_location s' = new
         /\ current_weather s' = snapshot
         /\ messages s' = messages s
         /\ lex_session_id s' = lex_session_id s
         /\ uploaded_image s' = uploaded_image s
         /\ uploaded_image_key s' = uploaded_image_key s.
Proof.
  intros U cfg o w s new HU Hcur _ Hnew Hpick.
  destruct (importable_weather U o new HU) as [snapshot Hw].
  exists snapshot. split; [exact Hw|].
  unfold state_after, run, script, bind. simpl. rewrite Hpick.
  rewrite (header_block_changes U o s new snapshot [] Hcur Hnew Hw).
  simpl. now repeat split.
Qed.

Lemma change_location_effect_witness :
  let s := state_after stub sample_config sample_answers untouched None in
  let w := {| picked_location := Some "Lund"; chat_input := None;
              file_uploader := None |} in
  exists snapshot,
    get_weather_for_location stub sample_answers (Some "Lund")
    = Normal snapshot
    /\ fst (run stub sample_config sample_answers w (Some s)) = Rerun
    /\ log (snd (run stub sample_config sample_answers w (Some s)))
       = [WeatherFetched "Lund"]
    /\ let s' := state_after stub sample_config sample_answers w (Some s) in
       current_location s' = "Lund"
       /\ current_weather s' = snapshot
       /\ messages s' = messages s
       /\ lex_session_id s' = lex_session_id s
       /\ uploaded_image s' = uploaded_image s
       /\ uploaded_image_key s' = uploaded_image_key s.
Proof.
  intros s w.
  apply (change_location_effect stub sample_config sample_answers w s "Lund").
  - right. reflexivity.
  - vm_compute. tauto.
  - vm_compute. tauto.
  - vm_compute. discriminate.
  - reflexivity.
Defined.

(** ** A run in which the user sends a chat message *)

Section SendMessage.

Variable U : helper_module.
Variable cfg : config.
Variable o : answers.

Lemma chat_block_sends (s : session_state) (text : string)
    (replies : list string) (l0 : list event) :
  text <> "" ->
  post_text_to_lex U o (LEX_BOT_ID cfg) (LEX_BOT_ALIAS_ID cfg)
    (lex_session_id s) text (Some (lex_attributes_of s)) = Normal replies ->
  chat_block U cfg o (Some text) {| session := s; log := l0 |}
  = (Rerun,
     {| session :=
          set_messages s
            (messages s
             ++ [user_turn text;
                 assistant_turn (join (newline ++ newline) replies)]);
        log :=
          l0 ++ [Appended (user_turn text);
                 LexCalled (LEX_BOT_ID cfg) (LEX_BOT_ALIAS_ID cfg)
                   (lex_session_id s) text (lex_attributes_of s);
                 Appended
                   (assistant_turn (join (newline ++ newline) replies))]
     |}).
Proof.
  intros Htext Hlex.
  unfold chat_block. rewrite (truthy_nonempty _ Htext).
  unfold bind, append_message, get_session, put_session, emit, call, rerun,
    bind; cbn [session log set_messages lex_session_id current_location
                 messages fst snd].
  unfold lex_attributes_of in Hlex. rewrite Hlex.
  cbn [session log set_messages lex_session_id current_location messages].
  unfold set_messages; cbn [lex_session_id messages current_location
                              current_weather uploaded_image
                              uploaded_image_key].
  now rewrite <- !app_assoc.
Qed.

Lemma chat_block_idle (input : option string) (w0 : world) :
  input = None \/ input = Some "" ->
  chat_block U cfg o input w0 = (Continue tt, w0).
Proof. now intros [->| ->]. Qed.

End SendMessage.

Section LiveReplies.

Import aws_utils.

Lemma collect_plain_text_nonempty (msgs : list lex_message)
    (texts : list string) :
  (forall m, In m msgs -> lex_content m <> Some "") ->
  collect_plain_text msgs = Normal texts ->
  Forall (fun t => t <> "") texts.
Proof.
  revert texts; induction msgs as [|m rest IH]; intros texts Hne; simpl.
  - intros H. injection H as <-. constructor.
  - destruct (opt_eq_str (lex_contentType m) "PlainText").
    + destruct (lex_content m) as [c|] eqn:Hc; [|discriminate].
      destruct (collect_plain_text rest) as [tail|]; [|discriminate].
      simpl. intros H. injection H as <-. constructor.
      * intros ->. apply (Hne m); [now left|exact Hc].
      * apply IH; [|reflexivity]. intros m' Hm'. apply Hne. now right.
    + apply IH. intros m' Hm'. apply Hne. now right.
Qed.

Lemma live_post_text_to_lex_returns (lex : lex_oracle)
    (bot_id alias_id session_id input_text : string)
    (attrs : option (list (string * string))) :
  lex_contents_nonempty lex ->
  exists first rest,
    post_text_to_lex lex bot_id alias_id session_id input_text attrs
    = Normal (first :: rest)
    /\ first <> "".
Proof.
  intros Hne.
  destruct (lex_try_body lex) as [replies|e] eqn:Hbody.
  - unfold post_text_to_lex. rewrite Hbody.
    unfold lex_try_body in Hbody.
    destruct lex as [[msgs|]|]; simpl in Hbody; try discriminate.
    + destruct (collect_plain_text msgs) as [texts|] eqn:Hc;
        [|discriminate].
      simpl in Hbody.
      assert (Hall : Forall (fun t => t <> "") texts).
      { apply (collect_plain_text_nonempty msgs); [|exact Hc].
        intros m Hm. now apply (Hne msgs). }
      destruct texts as [|t ts]; injection Hbody as <-.
      * do 2 eexists. split; [reflexivity|discriminate].
      * do 2 eexists. split; [reflexivity|]. now inversion Hall.
    + injection Hbody as <-.
      do 2 eexists. split; [reflexivity|discriminate].
  - rewrite (post_text_to_lex_raised bot_id alias_id session_id input_text
               attrs lex e Hbody).
    do 2 eexists. split; [reflexivity|].
    unfold handler_reply. destruct (category e); try discriminate.
    destruct e; discriminate.
Qed.

End LiveReplies.

Section JoinedReplies.

Lemma join_cons (first : string) (rest : list string) :
  join (newline ++ newline) (first :: rest)
  = first ++ after_blank_lines rest.
Proof.
  revert first; induction rest as [|r rest IH]; intros first.
  - cbn [join after_blank_lines]. induction first; simpl; congruence.
  - change (join (newline ++ newline) (first :: r :: rest))
      with (first ++ (newline ++ newline)
                  ++ join (newline ++ newline) (r :: rest)).
    rewrite IH. reflexivity.
Qed.

Lemma after_blank_lines_empty (rest : list string) :
  after_blank_lines rest = "" -> rest = [].
Proof. destruct rest; [reflexivity|discriminate]. Qed.

Lemma joined_empty (first : string) (rest : list string) :
  first ++ after_blank_lines rest = "" <-> first = "" /\ rest = [].
Proof.
  split.
  - destruct first; [|discriminate]. cbn [append]. intros H.
    split; [reflexivity|now apply after_blank_lines_empty].
  - now intros [-> ->].
Qed.

Lemma importable_lex_replies (U : helper_module) (o : answers)
    (bot_id alias_id session_id input_text : string)
    (attrs : option (list (string * string))) :
  importable U ->
  exists first rest,
    post_text_to_lex U o bot_id alias_id session_id input_text attrs
    = Normal (first :: rest)
    /\ (U = stub -> first <> "").
Proof.
  intros [->| ->]; cbn [post_text_to_lex live stub].
  - destruct (post_text_to_lex_returns bot_id alias_id session_id
                input_text attrs (lex o)) as ([|first rest] & Hr & Hlen);
      [cbn in Hlen; lia|].
    exists first, rest. split; [exact Hr|].
    intros H. discriminate H.
  - destruct (stub_post_text_to_lex_returns bot_id alias_id session_id
                input_text attrs) as (first & rest & Hr & Hne).
    now exists first, rest.
Qed.

End JoinedReplies.

(** C4, refuted as stated: with [aws_utils], when the one plain-text
    message Lex sends has an empty content, the assistant turn appended
    for the text "hello" is empty. *)
Lemma empty_lex_content_gives_empty_turn :
  let s := state_after live sample_config sample_answers untouched None in
  let w := {| picked_location := None; chat_input := Some "hello";
              file_uploader := None |} in
  messages (state_after live sample_config answers_lex_blank w (Some s))
  = [user_turn "hello"; assistant_turn ""].
Proof. reflexivity. Qed.

(** C4, amended: in a run where the user submits a non-empty chat text
    (the select box left on the current location), the script first
    appends the user turn with that text, then calls the engine with the
    session id, the text and the attributes [{currentLocation: current
    location}], then appends one assistant turn whose content is the
    first reply followed by each further reply after a blank line, and
    ends by its rerun; nothing else is written.  The assistant turn is
    empty exactly when the engine returned the single empty reply: never
    with [aws_utils_stub], and with [aws_utils] not as long as Lex sends
    no message with an empty content. *)
Theorem send_message_effect :
  forall (U : helper_module) (cfg : config) (o : answers) (w : widgets)
         (s : session_state) (text : string),
    importable U ->
    In (current_location s) (AVAILABLE_LOCATIONS U) ->
    picked_location w = None
    \/ picked_location w = Some (current_location s) ->
    chat_input w = Some text ->
    text <> "" ->
    exists first rest,
      post_text_to_lex U o (LEX_BOT_ID cfg) (LEX_BOT_ALIAS_ID cfg)
        (lex_session_id s) text
        (Some [("currentLocation", current_location s)])
      = Normal (first :: rest)
      /\ let reply := first ++ after_blank_lines rest in
         run U cfg o w (Some s)
         = (Rerun,
            {| session :=
                 set_messages s
                   (messages s ++ [user_turn text; assistant_turn reply]);
               log :=
                 [Appended (user_turn text);
                  LexCalled (LEX_BOT_ID cfg) (LEX_BOT_ALIAS_ID cfg)
                    (lex_session_id s) text
                    [("currentLocation", current_location s)];
                  Appended (assistant_turn reply)] |})
         /\ (reply = "" <-> first = "" /\ rest = [])
         /\ (U = stub -> reply <> "")
         /\ (U = live -> lex_contents_nonempty (lex o) -> reply <> "").
Proof.
  intros U cfg o w s text HU Hcur Hpick Hchat Htext.
  destruct (importable_lex_replies U o (LEX_BOT_ID cfg)
              (LEX_BOT_ALIAS_ID cfg) (lex_session_id s) text
              (Some (lex_attributes_of s)) HU)
    as (first & rest & Hr & Hstub).
  exists first, rest. split; [exact Hr|]. cbv zeta.
  split; [|split; [apply joined_empty|split]].
  - unfold run, script, bind. cbn [initialise]. rewrite Hchat.
    rewrite (header_block_stays U o s (picked_location w) [] Hcur Hpick).
    rewrite (chat_block_sends U cfg o s text (first :: rest) [] Htext Hr).
    now rewrite join_cons.
  - intros HU' Hempty. apply joined_empty in Hempty as [-> _].
    now apply (Hstub HU').
  - intros -> Hlex Hempty. apply joined_empty in Hempty as [-> _].
    cbn [post_text_to_lex live] in Hr.
    destruct (live_post_text_to_lex_returns (lex o) (LEX_BOT_ID cfg)
                (LEX_BOT_ALIAS_ID cfg) (lex_session_id s) text
                (Some (lex_attributes_of s)) Hlex)
      as (first' & rest' & Hr' & Hne).
    unfold lex_attributes_of in *. congruence.
Qed.

Lemma send_message_effect_witness :
  let s := state_after stub sample_config sample_answers untouched None in
  let w := {| picked_location := None; chat_input := Some "high risk?";
              file_uploader := None |} in
  messages (state_after stub sample_config sample_answers w (Some s))
  = [user_turn "high risk?";
     assistant_turn
       ("Weather indicates high risk based on your query."
        ++ newline ++ newline
        ++ "Please provide the filename of the uploaded image for analysis.")].
Proof.
  intros s w.
  destruct (send_message_effect stub sample_config sample_answers w s
              "high risk?") as (first & rest & Hr & Hrun & _).
  - right. reflexivity.
  - vm_compute. tauto.
  - left. reflexivity.
  - reflexivity.
  - discriminate.
  - unfold state_after. rewrite Hrun.
    vm_compute in Hr. injection Hr as <- <-. reflexivity.
Defined.

(** ** The first run of a connection *)

Section FirstRun.

Variable U : helper_module.
Variable cfg : config.
Variable o : answers.

Lemma initial_weather_block_fetches (s : session_state)
    (snapshot : weather) (l0 : list event) :
  temp (current_weather s) = NA ->
  get_weather_for_location U o (Some (current_location s))
  = Normal snapshot ->
  initial_weather_block U o {| session := s; log := l0 |}
  = (Rerun,
     {| session := set_current_weather s snapshot;
        log := l0 ++ [WeatherFetched (current_location s)] |}).
Proof.
  intros Hna Hw.
  unfold initial_weather_block, bind, get_session, update_weather, emit,
    call, put_session, rerun; cbn [session log].
  rewrite Hna. cbn [py_eq_str NA]. rewrite String.eqb_refl.
  cbn [session log]. now rewrite Hw.
Qed.

Lemma first_run (snapshot : weather) :
  In (DEFAULT_LOCATION U) (AVAILABLE_LOCATIONS U) ->
  get_weather_for_location U o (Some (DEFAULT_LOCATION U))
  = Normal snapshot ->
  run U cfg o untouched None
  = (Rerun,
     {| session := set_current_weather (initialise U o None) snapshot;
        log := [WeatherFetched (DEFAULT_LOCATION U)] |}).
Proof.
  intros Hin Hw.
  unfold run, script, bind. cbn [untouched picked_location chat_input
                                  file_uploader].
  rewrite (header_block_stays U o (initialise U o None) None []);
    [|exact Hin|now left].
  cbn [chat_block upload_block ret].
  now rewrite (initial_weather_block_fetches (initialise U o None)
                 snapshot []).
Qed.

End FirstRun.

(** C3, refuted as stated: the script imports [aws_utils_stub], whose
    default location is Stockholm at (59.33, 18.06); that, not uppsala, is
    the location of a new session. *)
Lemma initial_location_not_uppsala :
  current_location
    (state_after stub sample_config sample_answers untouched None)
  = "Stockholm"
  /\ current_location
       (state_after stub sample_config sample_answers untouched None)
     <> "uppsala"
  /\ assoc "Stockholm" (LOCATION_COORDS stub) = Some (59.33, 18.06)%Q.
Proof. repeat split. discriminate. Qed.

(** C3, amended: the first run sets the session's location to the default
    location of the helper module the script imports and fetches the
    initial weather snapshot for that location, then reruns.  With
    [aws_utils] the default is uppsala and the snapshot is made from the
    service's answer for (59.86, 17.64); with [aws_utils_stub], which the
    script imports as written, the default is Stockholm at
    (59.33, 18.06). *)
Theorem session_initialization :
  forall (U : helper_module) (cfg : config) (o : answers),
    importable U ->
    let first := run U cfg o untouched None in
    let s := session (snd first) in
    fst first = Rerun
    /\ current_location s = DEFAULT_LOCATION U
    /\ log (snd first) = [WeatherFetched (DEFAULT_LOCATION U)]
    /\ get_weather_for_location U o (Some (DEFAULT_LOCATION U))
       = Normal (current_weather s)
    /\ messages s = []
    /\ uploaded_image_key s = None
    /\ (U = live ->
        DEFAULT_LOCATION U = "uppsala"
        /\ aws_utils.get_coordinates (Some "uppsala") = (59.86, 17.64)%Q
        /\ current_weather s
           = snapshot_of_answer
               (http o (aws_utils.smhi_request_for (59.86, 17.64)%Q)))
    /\ (U = stub ->
        DEFAULT_LOCATION U = "Stockholm"
        /\ assoc "Stockholm" (LOCATION_COORDS U) = Some (59.33, 18.06)%Q).
Proof.
  intros U cfg o HU.
  destruct (importable_weather U o (DEFAULT_LOCATION U) HU)
    as [snapshot Hw].
  assert (Hin : In (DEFAULT_LOCATION U) (AVAILABLE_LOCATIONS U)).
  { destruct HU as [->| ->]; vm_compute; tauto. }
  rewrite (first_run U cfg o snapshot Hin Hw).
  cbn [fst snd session log set_current_weather current_location
         current_weather messages uploaded_image_key initialise].
  repeat split; try assumption; subst U; try reflexivity.
  cbn [get_weather_for_location live DEFAULT_LOCATION] in Hw.
  rewrite get_weather_for_location_snapshot in Hw.
  now injection Hw as <-.
Qed.

Lemma session_initialization_witness :
  let first := run live sample_config sample_answers untouched None in
  current_location (session (snd first)) = "uppsala"
  /\ log (snd first) = [WeatherFetched "uppsala"]
  /\ temp (current_weather (session (snd first))) = PNum 12.3%Q.
Proof.
  destruct (session_initialization live sample_config sample_answers)
    as (_ & Hloc & Hlog & _ & _ & _ & Hlive & _).
  - left. reflexivity.
  - destruct (Hlive eq_refl) as (_ & _ & Hw).
    cbv zeta. rewrite Hloc, Hlog, Hw. now repeat split.
Defined.

(** ** What each block leaves alone *)

Section Frames.

Variable U : helper_module.
Variable cfg : config.
Variable o : answers.

Lemma header_block_messages (picked : option string) (w0 : world) :
  messages (session (snd (header_block U o picked w0)))
  = messages (session w0).
Proof.
  unfold header_block, bind, get_session, call, update_weather, emit,
    put_session, rerun, ret; cbn [session log].
  destruct (index _ _); [|reflexivity].
  destruct (negb _); [|reflexivity].
  cbn [session log].
  now destruct (get_weather_for_location U o _).
Qed.

Lemma clear_upload_messages (w0 : world) :
  messages (session (snd (clear_upload w0))) = messages (session w0).
Proof. reflexivity. Qed.

Lemma upload_block_messages (uploaded : option uploaded_file) (w0 : world) :
  messages (session (snd (upload_block U cfg o uploaded w0)))
  = messages (session w0).
Proof.
  destruct uploaded as [f|]; [|reflexivity].
  unfold upload_block, try_except, bind, call, emit, get_session,
    put_session; cbn [session log].
  destruct (image_open o _); [|reflexivity].
  cbn [session log].
  destruct (upload_to_s3 U o _ _ _) as [[key|]|]; try reflexivity.
  now destruct (truthy key).
Qed.

Lemma initial_weather_block_messages (w0 : world) :
  messages (session (snd (initial_weather_block U o w0)))
  = messages (session w0).
Proof.
  unfold initial_weather_block, bind, get_session, update_weather, emit,
    call, put_session, rerun, ret; cbn [session log].
  destruct (py_eq_str _ _); [|reflexivity].
  cbn [session log].
  now destruct (get_weather_for_location U o _).
Qed.

Lemma initial_weather_block_upload (w0 : world) :
  uploaded_image_key (session (snd (initial_weather_block U o w0)))
  = uploaded_image_key (session w0).
Proof.
  unfold initial_weather_block, bind, get_session, update_weather, emit,
    call, put_session, rerun, ret; cbn [session log].
  destruct (py_eq_str _ _); [|reflexivity].
  cbn [session log].
  now destruct (get_weather_for_location U o _).
Qed.

(** The chat block either does nothing or, when a non-empty text was
    submitted and the engine returns, appends one pair of turns. *)
Lemma chat_block_messages (input : option string) (w0 : world) :
  importable U ->
  (chat_block U cfg o input w0 = (Continue tt, w0)
   /\ (input = None \/ input = Some ""))
  \/ exists text reply,
       input = Some text /\ text <> ""
       /\ fst (chat_block U cfg o input w0) = Rerun
       /\ messages (session (snd (chat_block U cfg o input w0)))
          = (messages (session w0)
             ++ [user_turn text; assistant_turn reply])%list.
Proof.
  intros HU.
  destruct input as [[|c text]|]; [left; split; auto..|right|
                                   left; split; auto].
  destruct w0 as [s l0].
  destruct (importable_lex U o (LEX_BOT_ID cfg) (LEX_BOT_ALIAS_ID cfg)
              (lex_session_id s) (String c text)
              (Some (lex_attributes_of s)) HU) as [replies Hr].
  exists (String c text), (join (newline ++ newline) replies).
  rewrite (chat_block_sends U cfg o s (String c text) replies l0);
    [|discriminate|exact Hr].
  now repeat split.
Qed.

(** One run leaves the transcript alone or appends one pair to it. *)
Lemma script_messages (w : widgets) (w0 : world) :
  importable U ->
  messages (session (snd (script U cfg o w w0))) = messages (session w0)
  \/ exists text reply,
       chat_input w = Some text /\ text <> ""
       /\ messages (session (snd (script U cfg o w w0)))
          = (messages (session w0)
             ++ [user_turn text; assistant_turn reply])%list.
Proof.
  intros HU. unfold script, bind.
  pose proof (header_block_messages (picked_location w) w0) as Hh.
  destruct (header_block U o (picked_location w) w0) as [[[]| |e] w1];
    cbn [snd] in Hh; [|now left..].
  destruct (chat_block_messages (chat_input w) w1 HU)
    as [[-> _]|(text & reply & Hin & Htext & Hflow & Hmsg)].
  - pose proof (upload_block_messages (file_uploader w) w1) as Hu.
    destruct (upload_block U cfg o (file_uploader w) w1)
      as [[[]| |e] w2]; cbn [snd] in Hu.
    + left. now rewrite initial_weather_block_messages, Hu.
    + left. cbn [snd]. now rewrite Hu.
    + left. cbn [snd]. now rewrite Hu.
  - right. exists text, reply. repeat split; try assumption.
    destruct (chat_block U cfg o (chat_input w) w1) as [[[]| |e] w2];
      cbn [fst snd] in *; try discriminate.
    now rewrite Hmsg, Hh.
Qed.

Lemma header_block_location (picked : option string) (w0 : world) :
  let s' := session (snd (header_block U o picked w0)) in
  current_location s' = current_location (session w0)
  \/ picked = Some (current_location s').
Proof.
  unfold header_block, bind, get_session, call, update_weather, emit,
    put_session, rerun, ret; cbn [session log].
  destruct (index _ _); [|now left].
  destruct picked as [l|]; [|rewrite String.eqb_refl; now left].
  destruct (negb _); [|now left].
  cbn [session log].
  destruct (get_weather_for_location U o _); now right.
Qed.

Lemma chat_block_location (input : option string) (w0 : world) :
  current_location (session (snd (chat_block U cfg o input w0)))
  = current_location (session w0).
Proof.
  destruct input as [prompt|]; [|reflexivity].
  unfold chat_block. destruct (truthy prompt); [|reflexivity].
  unfold bind, append_message, get_session, put_session, emit, call, rerun,
    bind;
    cbn [session log set_messages current_location lex_session_id].
  now destruct (post_text_to_lex U o _ _ _ _ _).
Qed.

Lemma upload_block_location (uploaded : option uploaded_file) (w0 : world) :
  current_location (session (snd (upload_block U cfg o uploaded w0)))
  = current_location (session w0).
Proof.
  destruct uploaded as [f|]; [|reflexivity].
  unfold upload_block, try_except, bind, call, emit, get_session,
    put_session; cbn [session log].
  destruct (image_open o _); [|reflexivity].
  cbn [session log].
  destruct (upload_to_s3 U o _ _ _) as [[key|]|]; try reflexivity.
  now destruct (truthy key).
Qed.

Lemma initial_weather_block_location (w0 : world) :
  current_location (session (snd (initial_weather_block U o w0)))
  = current_location (session w0).
Proof.
  unfold initial_weather_block, bind, get_session, update_weather, emit,
    call, put_session, rerun, ret; cbn [session log].
  destruct (py_eq_str _ _); [|reflexivity].
  cbn [session log].
  now destruct (get_weather_for_location U o _).
Qed.

(** One run keeps the location or moves it to the picked entry. *)
Lemma script_location (w : widgets) (w0 : world) :
  let s' := session (snd (script U cfg o w w0)) in
  current_location s' = current_location (session w0)
  \/ picked_location w = Some (current_location s').
Proof.
  cbv zeta. unfold script, bind.
  pose proof (header_block_location (picked_location w) w0) as Hh.
  cbv zeta in Hh.
  destruct (header_block U o (picked_location w) w0) as [[[]| |e] w1];
    cbn [snd] in *; try exact Hh.
  pose proof (chat_block_location (chat_input w) w1) as Hc.
  destruct (chat_block U cfg o (chat_input w) w1) as [[[]| |e] w2];
    cbn [snd] in *; try (rewrite Hc; exact Hh).
  pose proof (upload_block_location (file_uploader w) w2) as Hu.
  destruct (upload_block U cfg o (file_uploader w) w2) as [[[]| |e] w3];
    cbn [snd] in *; try (rewrite Hu, Hc; exact Hh).
  rewrite initial_weather_block_location, Hu, Hc. exact Hh.
Qed.

End Frames.

(** The session never holds an unregistered location. *)
Lemma reachable_location_registered (U : helper_module) (cfg : config)
    (s : session_state) :
  importable U -> reachable U cfg s ->
  In (current_location s) (AVAILABLE_LOCATIONS U).
Proof.
  intros HU Hreach.
  induction Hreach as [o w Hoff|o w s _ IH Hoff];
    unfold state_after, run, offered in *.
  - destruct (script_location U cfg o w
                {| session := initialise U o None; log := [] |})
      as [->|Hp].
    + cbn [session initialise current_location].
      destruct HU as [->| ->]; vm_compute; tauto.
    + now rewrite Hp in Hoff.
  - destruct (script_location U cfg o w
                {| session := initialise U o (Some s); log := [] |})
      as [->|Hp].
    + exact IH.
    + now rewrite Hp in Hoff.
Qed.

(** ** The shape of the transcript *)

Lemma alternating_app_pair (ms : list message) (text reply : string) :
  alternating ms = true ->
  alternating (ms ++ [user_turn text; assistant_turn reply]) = true.
Proof.
  enough (H : forall ms,
             (alternating ms = true ->
              alternating (ms ++ [user_turn text; assistant_turn reply])
              = true)
             /\ forall m,
                 alternating (m :: ms) = true ->
                 alternating
                   ((m :: ms) ++ [user_turn text; assistant_turn reply])
                 = true) by apply H.
  clear ms. induction ms as [|a ms [IH0 IH1]].
  - split; [reflexivity|discriminate].
  - split; [apply IH1|].
    intros m. cbn [alternating app].
    destruct (msg_role m); [|discriminate].
    destruct (msg_role a); [discriminate|]. exact IH0.
Qed.

Lemma alternating_even (ms : list message) :
  alternating ms = true -> Nat.even (List.length ms) = true.
Proof.
  enough (H : forall ms,
             (alternating ms = true -> Nat.even (List.length ms) = true)
             /\ forall m,
                 alternating (m :: ms) = true ->
                 Nat.even (List.length (m :: ms)) = true) by apply H.
  clear ms. induction ms as [|a ms [IH0 IH1]].
  - split; [reflexivity|discriminate].
  - split; [apply IH1|].
    intros m. cbn [alternating List.length Nat.even].
    destruct (msg_role m); [|discriminate].
    destruct (msg_role a); [discriminate|]. exact IH0.
Qed.

Lemma reachable_alternating (U : helper_module) (cfg : config)
    (s : session_state) :
  importable U -> reachable U cfg s -> alternating (messages s) = true.
Proof.
  intros HU Hreach.
  induction Hreach as [o w _|o w s _ IH _]; unfold state_after, run.
  - destruct (script_messages U cfg o w
                {| session := initialise U o None; log := [] |} HU)
      as [->|(text & reply & _ & _ & ->)]; [reflexivity|reflexivity].
  - destruct (script_messages U cfg o w
                {| session := initialise U o (Some s); log := [] |} HU)
      as [->|(text & reply & _ & _ & ->)]; [exact IH|].
    now apply alternating_app_pair.
Qed.

(** A run in which a non-empty text is sent from a reachable state
    appends the pair. *)
Lemma reachable_send_appends (U : helper_module) (cfg : config)
    (o : answers) (w : widgets) (s : session_state) (text : string) :
  importable U ->
  reachable U cfg s ->
  box_unchanged w s ->
  chat_input w = Some text ->
  text <> "" ->
  exists first rest,
    post_text_to_lex U o (LEX_BOT_ID cfg) (LEX_BOT_ALIAS_ID cfg)
      (lex_session_id s) text
      (Some [("currentLocation", current_location s)])
    = Normal (first :: rest)
    /\ messages (state_after U cfg o w (Some s))
       = (messages s
          ++ [user_turn text;
              assistant_turn (first ++ after_blank_lines rest)])%list.
Proof.
  intros HU Hs Hbox Hchat Htext.
  pose proof (reachable_location_registered U cfg s HU Hs) as Hcur.
  destruct (importable_lex_replies U o (LEX_BOT_ID cfg)
              (LEX_BOT_ALIAS_ID cfg) (lex_session_id s) text
              (Some (lex_attributes_of s)) HU)
    as (first & rest & Hr & _).
  exists first, rest. split; [exact Hr|].
  unfold state_after, run, script, bind. cbn [initialise]. rewrite Hchat.
  rewrite (header_block_stays U o s (picked_location w) [] Hcur Hbox).
  rewrite (chat_block_sends U cfg o s text (first :: rest) [] Htext Hr).
  cbn [snd session set_messages messages]. now rewrite join_cons.
Qed.

(** C10: a new session has an empty transcript.  A run in which a
    non-empty chat text is sent (the select box left on the current
    location) appends to the transcript exactly one user turn with that
    text followed by one assistant turn with the engine's joined replies;
    every other run leaves the transcript as it was, so no turn is ever
    removed or moved.  Hence in every reachable state the transcript
    alternates user and assistant turns, starts with a user turn, and has
    even length. *)
Theorem transcript_invariant :
  forall (U : helper_module) (cfg : config),
    importable U ->
    (forall o, messages (initialise U o None) = [])
    /\ (forall o w s text,
          reachable U cfg s ->
          picked_location w = None
          \/ picked_location w = Some (current_location s) ->
          chat_input w = Some text ->
          text <> "" ->
          exists first rest,
            post_text_to_lex U o (LEX_BOT_ID cfg) (LEX_BOT_ALIAS_ID cfg)
              (lex_session_id s) text
              (Some [("currentLocation", current_location s)])
            = Normal (first :: rest)
            /\ messages (state_after U cfg o w (Some s))
               = (messages s
                  ++ [user_turn text;
                      assistant_turn (first ++ after_blank_lines rest)])%list)
    /\ (forall o w bag,
          let before := messages (initialise U o bag) in
          let after := messages (state_after U cfg o w bag) in
          after = before
          \/ exists text reply,
               chat_input w = Some text /\ text <> ""
               /\ after
                  = (before ++ [user_turn text; assistant_turn reply])%list)
    /\ (forall s,
          reachable U cfg s ->
          alternating (messages s) = true
          /\ Nat.even (List.length (messages s)) = true).
Proof.
  intros U cfg HU. split; [reflexivity|]. split; [|split].
  - intros o w s text Hs Hbox Hchat Htext.
    now apply reachable_send_appends.
  - intros o w bag.
    exact (script_messages U cfg o w
             {| session := initialise U o bag; log := [] |} HU).
  - intros s Hs.
    pose proof (reachable_alternating U cfg s HU Hs) as Halt.
    split; [exact Halt|now apply alternating_even].
Qed.

Lemma transcript_invariant_witness :
  let s1 := state_after stub sample_config sample_answers untouched None in
  let w := {| picked_location := None; chat_input := Some "hello";
              file_uploader := None |} in
  let s2 := state_after stub sample_config sample_answers w (Some s1) in
  messages s1 = []
  /\ messages s2
     = [user_turn "hello";
        assistant_turn
          "Okay, you asked about 'hello'. Location context is 'Stockholm'."]
  /\ alternating (messages s2) = true
  /\ Nat.even (List.length (messages s2)) = true.
Proof.
  intros s1 w s2.
  destruct (transcript_invariant stub sample_config)
    as (H0 & Hsend & _ & Hinv).
  - right. reflexivity.
  - split; [reflexivity|]. split.
    + destruct (Hsend sample_answers w s1 "hello")
        as (first & rest & Hr & Hmsg).
      * apply reach_first. exact I.
      * left. reflexivity.
      * reflexivity.
      * discriminate.
      * unfold s2. rewrite Hmsg.
        vm_compute in Hr. injection Hr as <- <-. reflexivity.
    + apply Hinv. apply reach_next; [apply reach_first|]; exact I.
Defined.

(** ** Base names *)

Section Basename.

Lemma string_app_assoc (a b c : string) : (a ++ b) ++ c = a ++ (b ++ c).
Proof. induction a as [|x a IH]; simpl; [reflexivity|now rewrite IH]. Qed.

Lemma contains_slash_cons (c : ascii) (s : string) :
  contains "/" (String c s) = Ascii.eqb c "/" || contains "/" s.
Proof.
  cbn [contains prefix].
  destruct (ascii_dec "/" c) as [<-|Hne].
  - now destruct s.
  - assert (Ascii.eqb c "/" = false) as ->
        by (apply Ascii.eqb_neq; congruence).
    reflexivity.
Qed.

Lemma contains_slash_app (a b : string) :
  contains "/" (a ++ b) = contains "/" a || contains "/" b.
Proof.
  induction a as [|x a IH].
  - simpl. now destruct b.
  - cbn [append]. rewrite !contains_slash_cons, IH. now rewrite orb_assoc.
Qed.

Lemma after_last_slash_no_slash (p cur : string) :
  contains "/" p = false -> after_last_slash cur p = cur ++ p.
Proof.
  revert cur; induction p as [|c p IH]; intros cur H.
  - simpl. clear H. induction cur; simpl; congruence.
  - rewrite contains_slash_cons in H.
    apply orb_false_iff in H as [Hc Hp].
    cbn [after_last_slash]. rewrite Hc, (IH _ Hp).
    now rewrite string_app_assoc.
Qed.

Lemma after_last_slash_has_no_slash (p cur : string) :
  contains "/" cur = false ->
  contains "/" (after_last_slash cur p) = false.
Proof.
  revert cur; induction p as [|c p IH]; intros cur H; [exact H|].
  cbn [after_last_slash].
  destruct (Ascii.eqb c "/") eqn:Hc; apply IH; [reflexivity|].
  rewrite contains_slash_app, H, contains_slash_cons, Hc. reflexivity.
Qed.

Lemma basename_has_no_slash (p : string) : contains "/" (basename p) = false.
Proof. now apply after_last_slash_has_no_slash. Qed.

Lemma basename_no_slash (p : string) :
  contains "/" p = false -> basename p = p.
Proof. intros H. unfold basename. now rewrite after_last_slash_no_slash. Qed.

(** The base name of a key of the form [uploads/<uuid>-<name>]. *)
Lemma basename_uploads (uuid base : string) :
  contains "/" uuid = false ->
  contains "/" base = false ->
  basename ("uploads/" ++ uuid ++ "-" ++ base) = uuid ++ "-" ++ base.
Proof.
  intros Hu Hb. unfold basename. cbn -[contains].
  rewrite after_last_slash_no_slash; [reflexivity|].
  rewrite contains_slash_app, Hu, contains_slash_cons, Hb. reflexivity.
Qed.

End Basename.

(** ** A run in which the user uploads a picture *)

Section Upload.

Variable U : helper_module.
Variable cfg : config.
Variable o : answers.

Lemma upload_block_stores (s : session_state) (f : uploaded_file)
    (img : list Byte.byte) (key : string) (l0 : list event) :
  image_open o (getvalue f) = Normal img ->
  upload_to_s3 U o {| filename_attr := None; file_bytes := getvalue f |}
    (S3_BUCKET cfg) (Some (name f)) = Normal (Some key) ->
  key <> "" ->
  upload_block U cfg o (Some f) {| session := s; log := l0 |}
  = (Continue tt,
     {| session := set_uploaded s (Some img) (Some (basename key));
        log := l0 ++ [UploadCalled (S3_BUCKET cfg) (name f)] |}).
Proof.
  intros Himg Hup Hkey.
  unfold upload_block, try_except, bind, call, emit, get_session,
    put_session; cbn [session log].
  rewrite Himg. cbn [session log]. rewrite Hup.
  now rewrite (truthy_nonempty _ Hkey).
Qed.

End Upload.

(** C2, refuted as stated: after the upload of plant.jpg succeeds, the
    name kept for the chat is the whole base name of the storage key; it
    begins with the uploader's random identifier and is not plant.jpg. *)
Lemma display_name_keeps_random_token :
  let s := state_after stub sample_config sample_answers untouched None in
  let w := {| picked_location := None; chat_input := None;
              file_uploader := Some plant_jpg |} in
  let s' := state_after stub sample_config sample_answers w (Some s) in
  uploaded_image_key s'
  = Some "123e4567-e89b-42d3-a456-426614174000-plant.jpg"
  /\ uploaded_image_key s' <> Some "plant.jpg"
  /\ forall display,
       uploaded_image_key s' = Some display ->
       prefix (upload_uuid sample_answers) display = true.
Proof.
  cbv zeta. split; [reflexivity|]. split; [discriminate|].
  intros display H. vm_compute in H. injection H as <-. reflexivity.
Qed.

(** C2, amended: after a successful upload the name kept for the chat is
    the base name of the storage key the uploader returned, that is what
    follows the key's last slash.  With [aws_utils_stub], which the script
    imports, the key is [uploads/<uuid>-<name>] and the kept name is
    [<uuid>-<name>], random identifier included; with [aws_utils] the key
    is the suggested name itself and the kept name is its base name. *)
Theorem upload_display_name :
  forall (U : helper_module) (cfg : config) (o : answers) (w : widgets)
         (s : session_state) (f : uploaded_file) (img : list Byte.byte)
         (key : string),
    In (current_location s) (AVAILABLE_LOCATIONS U) ->
    picked_location w = None ->
    chat_input w = None ->
    file_uploader w = Some f ->
    image_open o (getvalue f) = Normal img ->
    upload_to_s3 U o {| filename_attr := None; file_bytes := getvalue f |}
      (S3_BUCKET cfg) (Some (name f)) = Normal (Some key) ->
    key <> "" ->
    uploaded_image_key (state_after U cfg o w (Some s))
    = Some (basename key)
    /\ (U = stub -> contains "/" (upload_uuid o) = false ->
        basename key = upload_uuid o ++ "-" ++ basename (name f))
    /\ (U = live -> basename key = basename (name f)).
Proof.
  intros U cfg o w s f img key Hcur Hpick Hchat Hfile Himg Hup Hkey.
  split; [|split].
  - unfold state_after, run, script, bind. cbn [initialise].
    rewrite Hpick, Hchat, Hfile.
    rewrite (header_block_stays U o s None [] Hcur (or_introl eq_refl)).
    cbn [chat_block ret].
    rewrite (upload_block_stores U cfg o s f img key [] Himg Hup Hkey).
    now rewrite initial_weather_block_upload.
  - intros -> Huuid.
    cbn [upload_to_s3 stub aws_utils_stub.upload_to_s3 filename_attr]
      in Hup.
    injection Hup as <-.
    now apply basename_uploads, basename_has_no_slash.
  - intros ->.
    cbn [upload_to_s3 live aws_utils.upload_to_s3] in Hup.
    destruct (s3 o); [|discriminate]. now injection Hup as <-.
Qed.

Lemma upload_display_name_witness :
  let s := state_after stub sample_config sample_answers untouched None in
  let w := {| picked_location := None; chat_input := None;
              file_uploader := Some plant_jpg |} in
  uploaded_image_key
    (state_after stub sample_config sample_answers w (Some s))
  = Some (basename
            "uploads/123e4567-e89b-42d3-a456-426614174000-plant.jpg").
Proof.
  intros s w.
  apply (upload_display_name stub sample_config sample_answers w s
           plant_jpg (getvalue plant_jpg)
           "uploads/123e4567-e89b-42d3-a456-426614174000-plant.jpg").
  - vm_compute. tauto.
  - reflexivity.
  - reflexivity.
  - reflexivity.
  - reflexivity.
  - reflexivity.
  - discriminate.
Defined.

(** ** Storage keys (upload_to_s3) *)

Section Keys.

Lemma replace_slash_cons (c : ascii) (r : string) :
  replace "/" "_" (String c r)
  = String (if Ascii.eqb c "/" then "_"%char else c) (replace "/" "_" r).
Proof.
  unfold replace. cbn [replace_from prefix String.length Nat.sub].
  destruct (ascii_dec "/" c) as [<-|Hne].
  - now destruct r.
  - assert (Ascii.eqb c "/" = false) as ->
        by (apply Ascii.eqb_neq; congruence).
    reflexivity.
Qed.

Lemma replace_slash_has_no_slash (s : string) :
  contains "/" (replace "/" "_" s) = false.
Proof.
  induction s as [|c s IH]; [reflexivity|].
  rewrite replace_slash_cons, contains_slash_cons, IH.
  now destruct (Ascii.eqb c "/") eqn:Hc; [|rewrite Hc].
Qed.

Lemma prefix_dotdot_cons (c : ascii) (s : string) :
  prefix ".." (String c s) = Ascii.eqb c "." && starts_dot s.
Proof.
  cbn [prefix].
  destruct (ascii_dec "." c) as [<-|Hne].
  - cbn [Ascii.eqb Bool.eqb andb]. destruct s as [|d s]; [reflexivity|].
    cbn [prefix starts_dot].
    destruct (ascii_dec "." d) as [<-|Hd].
    + now destruct s.
    + symmetry. apply Ascii.eqb_neq. congruence.
  - assert (Ascii.eqb c "." = false) as ->
        by (apply Ascii.eqb_neq; congruence).
    reflexivity.
Qed.

Lemma contains_dotdot_cons (c : ascii) (s : string) :
  contains ".." (String c s)
  = (Ascii.eqb c "." && starts_dot s) || contains ".." s.
Proof.
  change (contains ".." (String c s))
    with (if prefix ".." (String c s) then true else contains ".." s).
  rewrite prefix_dotdot_cons. now destruct (_ && _).
Qed.

Lemma replace_dotdot_cons (c : ascii) (r : string) :
  replace ".." "_" (String c r)
  = if Ascii.eqb c "." && starts_dot r
    then String "_" (replace ".." "_" (match r with
                                        | String _ r' => r'
                                        | EmptyString => EmptyString
                                        end))
    else String c (replace ".." "_" r).
Proof.
  unfold replace.
  change (replace_from ".." "_" 0 (String c r))
    with (if prefix ".." (String c r)
          then "_" ++ replace_from ".." "_" 1 r
          else String c (replace_from ".." "_" 0 r)).
  rewrite prefix_dotdot_cons.
  destruct (_ && _); [|reflexivity]. now destruct r.
Qed.

(** After [replace("..", "_")] no two dots are left side by side, and the
    result starts with a dot only where the argument started with a
    single one. *)
Lemma replace_dotdot_clean (s : string) :
  (contains ".." (replace ".." "_" s) = false
   /\ (starts_dot (replace ".." "_" s) = true ->
       starts_dot s = true /\ prefix ".." s = false))
  /\ forall c,
      contains ".." (replace ".." "_" (String c s)) = false
      /\ (starts_dot (replace ".." "_" (String c s)) = true ->
          starts_dot (String c s) = true
          /\ prefix ".." (String c s) = false).
Proof.
  induction s as [|a s [[IHc IHs] IHcons]].
  - split; [split; [reflexivity|discriminate]|].
    intros c. rewrite replace_dotdot_cons, prefix_dotdot_cons.
    cbn [starts_dot andb]. rewrite andb_false_r.
    change (replace ".." "_" "") with "".
    rewrite contains_dotdot_cons. cbn [starts_dot].
    rewrite andb_false_r. split; [reflexivity|].
    cbn [starts_dot]. intros H. now split.
  - split; [apply IHcons|].
    intros c. destruct (IHcons a) as [Hac Has].
    rewrite replace_dotdot_cons, prefix_dotdot_cons.
    destruct (Ascii.eqb c "." && starts_dot (String a s)) eqn:Hp.
    + rewrite contains_dotdot_cons. cbn [Ascii.eqb Bool.eqb andb orb].
      split; [exact IHc|]. cbn [starts_dot Ascii.eqb Bool.eqb].
      discriminate.
    + rewrite contains_dotdot_cons, Hac, orb_false_r. split.
      * destruct (Ascii.eqb c ".") eqn:Hc; [|reflexivity].
        cbn [andb] in *.
        destruct (starts_dot (replace ".." "_" (String a s))) eqn:Hd;
          [|reflexivity].
        destruct (Has eq_refl) as [Hsd _]. congruence.
      * cbn [starts_dot]. intros H. now split.
Qed.

Lemma replace_slash_keeps_dots (s : string) :
  starts_dot (replace "/" "_" s) = starts_dot s
  /\ contains ".." (replace "/" "_" s) = contains ".." s.
Proof.
  induction s as [|c s [IHs IHc]]; [now split|].
  rewrite replace_slash_cons.
  assert (Hc : Ascii.eqb (if Ascii.eqb c "/" then "_"%char else c) "."
               = Ascii.eqb c ".").
  { destruct (Ascii.eqb c "/") eqn:H; [|reflexivity].
    apply Ascii.eqb_eq in H. now subst c. }
  split.
  - cbn [starts_dot]. exact Hc.
  - now rewrite !contains_dotdot_cons, Hc, IHs, IHc.
Qed.

(** The name the fallback branch puts behind the identifier holds no
    slash and no dot-dot. *)
Lemma sanitized_name_clean (n : string) :
  let sanitized := replace "/" "_" (replace ".." "_" (basename n)) in
  contains "/" sanitized = false /\ contains ".." sanitized = false.
Proof.
  cbv zeta. split; [apply replace_slash_has_no_slash|].
  destruct (replace_slash_keeps_dots (replace ".." "_" (basename n)))
    as [_ ->].
  apply replace_dotdot_clean.
Qed.

Lemma string_length_app (a b : string) :
  String.length (a ++ b) = String.length a + String.length b.
Proof. induction a as [|x a IH]; simpl; [reflexivity|now rewrite IH]. Qed.

Lemma string_app_inv_tail (a b c : string) : a ++ c = b ++ c -> a = b.
Proof.
  revert b; induction a as [|x a IH]; intros [|y b] H; simpl in H.
  - reflexivity.
  - apply (f_equal String.length) in H. simpl in H.
    rewrite string_length_app in H. lia.
  - apply (f_equal String.length) in H. simpl in H.
    rewrite string_length_app in H. lia.
  - injection H as -> H. f_equal. now apply IH.
Qed.

(** The sibling path inside [aws_utils.upload_to_s3]: without a supplied
    name, the key is made of a fresh identifier and the sanitised file
    name, and two identifiers give two keys. *)
Lemma upload_to_s3_fallback_name (uuid : string) (data : list Byte.byte)
    (bucket n : string) :
  n <> "" ->
  let sanitized := replace "/" "_" (replace ".." "_" (basename n)) in
  aws_utils.upload_to_s3 uuid S3Stored
    {| filename_attr := Some (Some n); file_bytes := data |} bucket None
  = Normal (Some ("uploads/" ++ uuid ++ "-" ++ sanitized))
  /\ contains "/" sanitized = false
  /\ contains ".." sanitized = false.
Proof.
  intros Hn. cbv zeta. split; [|apply sanitized_name_clean].
  unfold aws_utils.upload_to_s3. cbn [filename_attr].
  now rewrite (truthy_nonempty _ Hn).
Qed.

Lemma fallback_keys_distinct (uuid1 uuid2 tail : string) :
  uuid1 <> uuid2 ->
  "uploads/" ++ uuid1 ++ tail <> "uploads/" ++ uuid2 ++ tail.
Proof.
  intros Hne H. apply Hne.
  apply (string_app_inv_tail uuid1 uuid2 tail).
  cbn [append] in H. now repeat injection H as H.
Qed.

(** The other sibling: the stub puts an identifier before the base name of
    a supplied name. *)
Lemma stub_upload_to_s3_supplied_name (uuid : string) (f : file_obj)
    (bucket n : string) :
  aws_utils_stub.upload_to_s3 uuid f bucket (Some n)
  = Normal (Some ("uploads/" ++ uuid ++ "-" ++ basename n))
  /\ contains "/" (basename n) = false.
Proof. split; [reflexivity|apply basename_has_no_slash]. Qed.

End Keys.

(** C1, the code at the failing input: handed the suggested name
    [../secret], [aws_utils.upload_to_s3] stores the object under that
    very name -- slash and dot-dot kept, no random identifier added -- so
    two uploads of the same name, whatever identifiers they draw, get the
    same key. *)
Theorem upload_to_s3_keeps_supplied_name :
  forall (uuid1 uuid2 : string) (f : file_obj) (bucket : string),
    aws_utils.upload_to_s3 uuid1 S3Stored f bucket (Some "../secret")
    = Normal (Some "../secret")
    /\ aws_utils.upload_to_s3 uuid2 S3Stored f bucket (Some "../secret")
       = aws_utils.upload_to_s3 uuid1 S3Stored f bucket (Some "../secret")
    /\ contains "/" "../secret" = true
    /\ contains ".." "../secret" = true.
Proof. intros. now repeat split. Qed.

(** * Further properties of the code *)

(** ** The registry beyond the registered names *)

Section RegistryFallback.

Import aws_utils.

Lemma assoc_not_in {V : Type} (k : string) (d : list (string * V)) :
  ~ In k (map fst d) -> assoc k d = None.
Proof.
  induction d as [|[k' v] d IH]; [reflexivity|].
  cbn [map fst In assoc]. intros H.
  destruct (String.eqb k k') eqn:Hk.
  - apply String.eqb_eq in Hk. subst k'. destruct H. now left.
  - apply IH. intros Hin. apply H. now right.
Qed.

Lemma assoc_in_values {V : Type} (k : string) (d : list (string * V))
    (v : V) :
  assoc k d = Some v -> In v (map snd d).
Proof.
  induction d as [|[k' v'] d IH]; [discriminate|].
  cbn [map snd In assoc].
  destruct (String.eqb k k'); [intros H; injection H as ->; now left|].
  intros H. right. now apply IH.
Qed.

Lemma DEFAULT_COORDS_value : DEFAULT_COORDS = (59.86, 17.64)%Q.
Proof. reflexivity. Qed.

End RegistryFallback.

(** X1: [get_coordinates] only ever answers with coordinates of its
    table, and it answers with the default, uppsala's (59.86, 17.64),
    for [None], for the empty name and for every name whose lower-case
    form is no key of the table. *)
Theorem get_coordinates_fallback :
  forall location_name : option string,
    In (aws_utils.get_coordinates location_name)
       (map snd aws_utils.LOCATION_COORDS)
    /\ (location_name = None
        \/ location_name = Some ""
        \/ (exists s, location_name = Some s
                      /\ ~ In (lower s) (map fst aws_utils.LOCATION_COORDS))
        -> aws_utils.get_coordinates location_name = (59.86, 17.64)%Q).
Proof.
  intros location_name. split.
  - unfold aws_utils.get_coordinates.
    destruct location_name as [s|];
      [|rewrite DEFAULT_COORDS_value; cbn; tauto].
    destruct (negb (truthy s));
      [rewrite DEFAULT_COORDS_value; cbn; tauto|].
    destruct (assoc (lower s) aws_utils.LOCATION_COORDS) as [c|] eqn:Hc.
    + now apply assoc_in_values with (lower s).
    + rewrite DEFAULT_COORDS_value; cbn; tauto.
  - intros [->|[->|(s & -> & Hs)]]; try reflexivity.
    unfold aws_utils.get_coordinates.
    destruct (negb (truthy s)); [reflexivity|].
    now rewrite (assoc_not_in _ _ Hs).
Qed.

Lemma get_coordinates_fallback_witness :
  aws_utils.get_coordinates (Some "Paris") = (59.86, 17.64)%Q.
Proof.
  apply (get_coordinates_fallback (Some "Paris")).
  right. right. exists "Paris". split; [reflexivity|].
  vm_compute. intuition discriminate.
Defined.

(** X2: every name the stub offers in the select box resolves, in the
    registry of [aws_utils], to the coordinates the stub lists for it, so
    switching the import keeps each selectable place where it was. *)
Theorem stub_names_resolve_alike :
  forall (n : string) (c : coords),
    In (n, c) aws_utils_stub.LOCATION_COORDS ->
    aws_utils.get_coordinates (Some n) = c.
Proof.
  unfold aws_utils_stub.LOCATION_COORDS. cbn [In].
  intros n c H.
  repeat (destruct H as [H|H]; [injection H as <- <-; reflexivity|]).
  contradiction.
Qed.

Lemma stub_names_resolve_alike_witness :
  aws_utils.get_coordinates (Some (lat1 214 ++ "rebro"))
  = (59.27, 15.21)%Q.
Proof.
  apply (stub_names_resolve_alike (lat1 214 ++ "rebro") (59.27, 15.21)%Q).
  cbn. tauto.
Defined.

(** ** Which error a failed fetch reports *)

Section WeatherErrors.

Import aws_utils.

Lemma py_get_raises (v : pyval) (k : string) (e : pyexn) :
  py_get v k = Raised e -> lookup_error e = true.
Proof. destruct v; simpl; intros H; now inversion H. Qed.

Lemma py_getitem_raises (v : pyval) (k : string) (e : pyexn) :
  py_getitem v k = Raised e -> lookup_error e = true.
Proof.
  destruct v; simpl; try (intros H; now inversion H).
  destruct (assoc k kv); intros H; now inversion H.
Qed.

Lemma py_getitem0_raises (v : pyval) (e : pyexn) :
  py_getitem0 v = Raised e -> lookup_error e = true.
Proof.
  destruct v as [| | |[|c s]|[|x l]|kv]; simpl; intros H; now inversion H.
Qed.

Lemma py_iter_raises (v : pyval) (e : pyexn) :
  py_iter v = Raised e -> lookup_error e = true.
Proof. destruct v; simpl; intros H; now inversion H. Qed.

Lemma py_hash_raises (v : pyval) (e : pyexn) :
  py_hash v = Raised e -> lookup_error e = true.
Proof. destruct v; simpl; intros H; now inversion H. Qed.

Lemma build_parameters_lookup_error (items : list pyval) (e : pyexn) :
  build_parameters items = Raised e -> lookup_error e = true.
Proof.
  induction items as [|param rest IH]; [discriminate|].
  cbn [build_parameters].
  destruct (py_getitem param "name") as [nm|e1] eqn:H1; cbn [pybind];
    [|intros H; injection H as <-; eauto using py_getitem_raises].
  destruct (py_getitem param "values") as [vals|e2] eqn:H2; cbn [pybind];
    [|intros H; injection H as <-; eauto using py_getitem_raises].
  destruct (py_getitem0 vals) as [v0|e3] eqn:H3; cbn [pybind];
    [|intros H; injection H as <-; eauto using py_getitem0_raises].
  destruct (py_hash nm) as [[]|e4] eqn:H4; cbn [pybind];
    [|intros H; injection H as <-; eauto using py_hash_raises].
  destruct (build_parameters rest) as [stores|e5]; cbn [pybind];
    [discriminate|].
  intros H; injection H as <-. now apply IH.
Qed.

(** Whatever the payload, the walk raises only lookup errors, which the
    last [except] clause answers. *)
Lemma extract_lookup_error (j : pyval) (e : pyexn) :
  extract j = Raised e -> lookup_error e = true.
Proof.
  unfold extract.
  destruct (py_get j "timeSeries") as [series|e1] eqn:H1; cbn [pybind];
    [|intros H; injection H as <-; eauto using py_get_raises].
  destruct (negb (py_truthy series)); [discriminate|].
  destruct (py_getitem j "timeSeries") as [series'|e2] eqn:H2; cbn [pybind];
    [|intros H; injection H as <-; eauto using py_getitem_raises].
  destruct (py_getitem0 series') as [first|e3] eqn:H3; cbn [pybind];
    [|intros H; injection H as <-; eauto using py_getitem0_raises].
  destruct (py_getitem first "parameters") as [params|e4] eqn:H4;
    cbn [pybind];
    [|intros H; injection H as <-; eauto using py_getitem_raises].
  destruct (py_iter params) as [items|e5] eqn:H5; cbn [pybind];
    [|intros H; injection H as <-; eauto using py_iter_raises].
  destruct (build_parameters items) as [stores|e6] eqn:H6; cbn [pybind];
    [discriminate|].
  intros H; injection H as <-. eauto using build_parameters_lookup_error.
Qed.

Lemma lookup_error_message (e : pyexn) :
  lookup_error e = true ->
  weather_error_message e = "Unexpected weather error.".
Proof. destruct e; try discriminate; reflexivity. Qed.

Lemma weather_error_message_by_class (e : pyexn) :
  weather_error_message e = request_failure_message e.
Proof. now destruct e. Qed.

(** The format error is reported exactly for the payloads without
    series. *)
Lemma extract_lacks_series (j : pyval) :
  lacks_series j = true ->
  extract j = Normal (set_error unavailable "SMHI API data format error.").
Proof.
  destruct j as [| | | | |top]; try discriminate.
  unfold extract. cbn [lacks_series py_get pybind].
  destruct (assoc "timeSeries" top) as [series|]; [|reflexivity].
  now intros ->.
Qed.

Lemma extract_has_series (j : pyval) (w : weather) :
  lacks_series j = false -> extract j = Normal w -> error w = None.
Proof.
  unfold extract.
  destruct j as [| | | | |top]; try discriminate.
  cbn [lacks_series py_get pybind].
  destruct (assoc "timeSeries" top) as [series|]; [|discriminate].
  intros ->.
  repeat match goal with
         | |- context [pybind ?m _] =>
             destruct m; cbn [pybind]; try discriminate
         end.
  intros H. now injection H as <-.
Qed.

End WeatherErrors.

(** X3: the error a snapshot carries is decided by how the fetch went.  A
    request that raised is reported by its class: every exception of
    requests (connection, timeout and status errors, its other
    subclasses, and its own decode error) as "Could not reach weather
    service.", a plain [json.JSONDecodeError] as "Error reading weather
    data.", an exception of any other class as "Unexpected weather
    error.".
    A payload without forecast series is reported as "SMHI API data format
    error.", any other payload the walk cannot follow as "Unexpected
    weather error.", and a payload it can follow carries no error. *)
Theorem weather_error_by_failure :
  forall (http : http_oracle) (location_name : option string),
    exists w,
      aws_utils.get_weather_for_location http location_name = Normal w
      /\ error w
         = match http (aws_utils.smhi_request_for
                         (aws_utils.get_coordinates location_name)) with
           | Raised e => Some (request_failure_message e)
           | Normal j =>
               if walkable j then None
               else if lacks_series j
                    then Some "SMHI API data format error."
                    else Some "Unexpected weather error."
           end.
Proof.
  intros http location_name.
  unfold aws_utils.get_weather_for_location, aws_utils.fetch_and_extract.
  destruct (http _) as [j|e]; cbn [pybind].
  - destruct (walkable j) eqn:Hshape.
    + destruct (extract_walkable j Hshape) as (w & -> & Herr).
      now exists w.
    + destruct (lacks_series j) eqn:Hseries.
      * rewrite (extract_lacks_series j Hseries). eexists. now split.
      * destruct (extract_not_walkable j Hshape) as [[e He]|He].
        -- rewrite He. eexists. split; [reflexivity|].
           cbn [error set_error]. f_equal.
           eauto using lookup_error_message, extract_lookup_error.
        -- pose proof (extract_has_series j _ Hseries He). discriminate.
  - eexists. split; [reflexivity|].
    cbn [error set_error]. now rewrite weather_error_message_by_class.
Qed.

(** ** The replies of a Lex response *)

Section LexReplies.

Import aws_utils.

Lemma collect_plain_text_complete (msgs : list lex_message) :
  plain_texts_complete msgs = true ->
  collect_plain_text msgs = Normal (plain_texts msgs).
Proof.
  induction msgs as [|m rest IH]; [reflexivity|].
  cbn [plain_texts_complete forallb plain_texts flat_map collect_plain_text].
  intros H. apply andb_true_iff in H as [Hm Hrest].
  specialize (IH Hrest). unfold plain_texts in IH.
  destruct (opt_eq_str (lex_contentType m) "PlainText"); [|exact IH].
  destruct (lex_content m); [|discriminate].
  now rewrite IH.
Qed.

Lemma collect_plain_text_incomplete (msgs : list lex_message) :
  plain_texts_complete msgs = false ->
  collect_plain_text msgs = Raised KeyError.
Proof.
  induction msgs as [|m rest IH]; [discriminate|].
  cbn [plain_texts_complete forallb collect_plain_text].
  intros H. apply andb_false_iff in H.
  destruct (opt_eq_str (lex_contentType m) "PlainText").
  - destruct (lex_content m).
    + destruct H as [H|H]; [discriminate|]. now rewrite (IH H).
    + reflexivity.
  - destruct H as [H|H]; [discriminate|]. now apply IH.
Qed.

End LexReplies.

(** X6: when Lex answers, the replies are the contents of the plain-text
    messages of the response, in the order of the response; messages of
    other content types are skipped.  A response without any plain-text
    message is answered by "Sorry, I didn't get a response. Try again.",
    and a response in which one plain-text message has no content is
    answered as a whole by "An unexpected error occurred.", the contents
    of its other messages notwithstanding. *)
Theorem post_text_to_lex_replies :
  forall (msgs : list lex_message)
         (bot_id alias_id session_id input_text : string)
         (attrs : option (list (string * string))),
    aws_utils.post_text_to_lex (Normal (Some msgs)) bot_id alias_id
      session_id input_text attrs
    = Normal
        (if plain_texts_complete msgs
         then match plain_texts msgs with
              | [] => ["Sorry, I didn't get a response. Try again."]
              | texts => texts
              end
         else ["An unexpected error occurred."]).
Proof.
  intros msgs bot_id alias_id session_id input_text attrs.
  unfold aws_utils.post_text_to_lex, aws_utils.lex_try_body.
  cbn [pybind].
  destruct (plain_texts_complete msgs) eqn:Hc.
  - rewrite (collect_plain_text_complete msgs Hc). cbn [pybind].
    now destruct (plain_texts msgs).
  - now rewrite (collect_plain_text_incomplete msgs Hc).
Qed.

(** ** Keys made without a supplied name *)

(** X4: called without [object_name] on a file object that has a
    non-empty [filename], [aws_utils.upload_to_s3] stores under
    [uploads/<uuid>-<name>], where <name> is the base name of the file
    name with every dot-dot and slash replaced by an underscore and so
    holds neither; two calls that draw different identifiers get different
    keys, also for the same file name.  A file object without a usable
    file name is stored under [uploads/<uuid>]. *)
Theorem upload_to_s3_generated_key :
  forall (uuid1 uuid2 : string) (data : list Byte.byte)
         (bucket n : string),
    n <> "" ->
    uuid1 <> uuid2 ->
    let named := {| filename_attr := Some (Some n); file_bytes := data |} in
    let sanitized := replace "/" "_" (replace ".." "_" (basename n)) in
    aws_utils.upload_to_s3 uuid1 S3Stored named bucket None
    = Normal (Some ("uploads/" ++ uuid1 ++ "-" ++ sanitized))
    /\ contains "/" sanitized = false
    /\ contains ".." sanitized = false
    /\ aws_utils.upload_to_s3 uuid1 S3Stored named bucket None
       <> aws_utils.upload_to_s3 uuid2 S3Stored named bucket None
    /\ (forall attr,
          attr = None \/ attr = Some None \/ attr = Some (Some "") ->
          aws_utils.upload_to_s3 uuid1 S3Stored
            {| filename_attr := attr; file_bytes := data |} bucket None
          = Normal (Some ("uploads/" ++ uuid1))).
Proof.
  intros uuid1 uuid2 data bucket n Hn Hne. cbv zeta.
  destruct (upload_to_s3_fallback_name uuid1 data bucket n Hn)
    as (H1 & Hslash & Hdots).
  destruct (upload_to_s3_fallback_name uuid2 data bucket n Hn)
    as (H2 & _ & _).
  cbv zeta in H1, H2. rewrite H1, H2.
  repeat split; try assumption.
  - intros H. apply (f_equal (fun r => match r with
                                       | Normal (Some k) => k
                                       | _ => ""
                                       end)) in H.
    now apply (fallback_keys_distinct uuid1 uuid2 _ Hne) in H.
  - now intros attr [->|[->| ->]].
Qed.

Lemma upload_to_s3_generated_key_witness :
  aws_utils.upload_to_s3 "1111" S3Stored
    {| filename_attr := Some (Some "a/../leaf..jpg"); file_bytes := [] |}
    "potato-images" None
  = Normal (Some "uploads/1111-leaf_jpg").
Proof.
  destruct (upload_to_s3_generated_key "1111" "2222" [] "potato-images"
              "a/../leaf..jpg") as (H & _); [discriminate..|].
  exact H.
Defined.

(** ** Every way a run can go *)

Section RunOutcomes.

Variable U : helper_module.
Variable cfg : config.
Variable o : answers.

Lemma header_block_index_raised (picked : option string)
    (s : session_state) (l0 : list event) (e : pyexn) :
  index (current_location s) (AVAILABLE_LOCATIONS U) = Raised e ->
  header_block U o picked {| session := s; log := l0 |}
  = (Escaped e, {| session := s; log := l0 |}).
Proof.
  intros Hi. unfold header_block, bind, get_session, call; cbn [session].
  now rewrite Hi.
Qed.

Lemma header_block_unchanged (w : widgets) (s : session_state)
    (l0 : list event) (i : nat) :
  index (current_location s) (AVAILABLE_LOCATIONS U) = Normal i ->
  box_unchanged w s ->
  header_block U o (picked_location w) {| session := s; log := l0 |}
  = (Continue tt, {| session := s; log := l0 |}).
Proof.
  intros Hi Hbox.
  unfold header_block, bind, get_session, call, ret; cbn [session].
  rewrite Hi. destruct Hbox as [->| ->]; now rewrite String.eqb_refl.
Qed.

Lemma header_block_moved (s : session_state) (l : string)
    (l0 : list event) (i : nat) :
  index (current_location s) (AVAILABLE_LOCATIONS U) = Normal i ->
  l <> current_location s ->
  header_block U o (Some l) {| session := s; log := l0 |}
  = match get_weather_for_location U o (Some l) with
    | Normal snapshot =>
        (Rerun,
         {| session :=
              set_current_weather (set_current_location s l) snapshot;
            log := l0 ++ [WeatherFetched l] |})
    | Raised e =>
        (Escaped e,
         {| session := set_current_location s l;
            log := l0 ++ [WeatherFetched l] |})
    end.
Proof.
  intros Hi Hl. apply String.eqb_neq in Hl.
  unfold header_block, bind, get_session, call, update_weather, emit,
    put_session, rerun, bind; cbn [session log].
  rewrite Hi, Hl; cbn [negb session log].
  now destruct (get_weather_for_location U o (Some l)).
Qed.

Lemma chat_block_engine_raised (s : session_state) (text : string)
    (e : pyexn) (l0 : list event) :
  text <> "" ->
  lex_call U cfg o s text = Raised e ->
  chat_block U cfg o (Some text) {| session := s; log := l0 |}
  = (Escaped e,
     {| session := set_messages s (messages s ++ [user_turn text]);
        log := l0 ++ [Appended (user_turn text);
                      lex_event cfg s text] |}).
Proof.
  intros Htext Hlex.
  unfold chat_block. rewrite (truthy_nonempty _ Htext).
  unfold bind, append_message, get_session, put_session, emit, call, rerun,
    bind; cbn [session log set_messages lex_session_id current_location
                 messages fst snd].
  unfold lex_call, lex_attributes_of in Hlex. rewrite Hlex.
  cbn [session log]. unfold lex_event, lex_attributes_of.
  now rewrite <- !app_assoc.
Qed.

Lemma upload_block_outcome (uploaded : option uploaded_file)
    (s : session_state) (l0 : list event) :
  exists s' l,
    upload_outcome U cfg o uploaded s s' l
    /\ upload_block U cfg o uploaded {| session := s; log := l0 |}
       = (Continue tt, {| session := s'; log := (l0 ++ l)%list |}).
Proof.
  destruct uploaded as [f|].
  2:{ exists s, []. split; [now constructor|].
      now rewrite app_nil_r. }
  unfold upload_block, try_except, bind, call, emit, get_session,
    put_session, clear_upload, bind, get_session, put_session;
    cbn [session log].
  destruct (image_open o (getvalue f)) as [img|e] eqn:Himg;
    cbn [session log].
  2:{ exists (set_uploaded s None None), []. split.
      - now apply up_not_a_picture with f e.
      - now rewrite app_nil_r. }
  destruct (upload_to_s3 U o _ _ _) as [[key|]|e] eqn:Hup;
    cbn [session log].
  - destruct key as [|c key]; cbn [truthy session log].
    + exists (set_uploaded s None None),
        [UploadCalled (S3_BUCKET cfg) (name f)].
      split; [|reflexivity].
      apply up_failed with img; auto.
    + exists (set_uploaded s (Some img) (Some (basename (String c key)))),
        [UploadCalled (S3_BUCKET cfg) (name f)].
      split; [|reflexivity].
      eapply up_stored; eauto. discriminate.
  - exists (set_uploaded s None None),
      [UploadCalled (S3_BUCKET cfg) (name f)].
    split; [|reflexivity].
    apply up_failed with img; auto.
  - exists (set_uploaded s None None),
      [UploadCalled (S3_BUCKET cfg) (name f)].
    split; [|reflexivity].
    apply up_failed with img; eauto.
Qed.

Lemma initial_weather_block_outcome (s : session_state) (l0 : list event) :
  weather_outcome U o s l0
    (initial_weather_block U o {| session := s; log := l0 |}).
Proof.
  unfold initial_weather_block, bind, get_session, update_weather, emit,
    call, put_session, rerun, ret, bind; cbn [session log].
  destruct (py_eq_str (temp (current_weather s)) "N/A") eqn:Hna;
    [|now constructor].
  cbn [session log].
  destruct (get_weather_for_location U o (Some (current_location s)))
    as [snapshot|e] eqn:Hw; cbn [session log].
  - now apply iw_fetched.
  - now apply iw_raised.
Qed.

(** The script goes one of the ways of [run_outcome]. *)
Lemma script_outcome (w : widgets) (s : session_state) :
  run_outcome U cfg o w s
    (script U cfg o w {| session := s; log := [] |}).
Proof.
  unfold script, bind.
  destruct (index (current_location s) (AVAILABLE_LOCATIONS U))
    as [i|e] eqn:Hi.
  2:{ rewrite (header_block_index_raised _ s [] e Hi).
      now apply out_index_raised. }
  assert (Hbox : box_unchanged w s
                 \/ exists l, picked_location w = Some l
                              /\ l <> current_location s).
  { unfold box_unchanged. destruct (picked_location w) as [l|]; [|auto].
    destruct (String.eqb l (current_location s)) eqn:Hl.
    - apply String.eqb_eq in Hl. subst l. auto.
    - apply String.eqb_neq in Hl. right. now exists l. }
  destruct Hbox as [Hbox|(l & Hpick & Hl)].
  2:{ rewrite Hpick, (header_block_moved s l [] i Hi Hl).
      destruct (get_weather_for_location U o (Some l)) as [snapshot|e]
        eqn:Hw.
      - now apply out_location_changed with i.
      - now apply out_location_fetch_raised with i. }
  rewrite (header_block_unchanged w s [] i Hi Hbox).
  destruct (chat_input w) as [[|c text]|] eqn:Hchat.
  1,3: rewrite chat_block_idle by auto;
       destruct (upload_block_outcome (file_uploader w) s [])
         as (s' & l & Hup & ->);
       cbn [app];
       apply out_quiet with i s' l; auto;
       [unfold chat_idle; auto|apply initial_weather_block_outcome].
  destruct (lex_call U cfg o s (String c text)) as [replies|e] eqn:Hlex.
  - rewrite (chat_block_sends U cfg o s (String c text) replies []);
      [|discriminate|exact Hlex].
    apply (out_message_sent U cfg o w s i (String c text) replies); auto.
    discriminate.
  - rewrite (chat_block_engine_raised s (String c text) e []);
      [|discriminate|exact Hlex].
    apply out_engine_raised with i; auto. discriminate.
Qed.

(** Under the two importable modules the helpers never raise, and with a
    registered location neither does the select box. *)
Lemma run_outcome_no_escape (w : widgets) (s : session_state)
    (r : flow unit * world) :
  importable U ->
  In (current_location s) (AVAILABLE_LOCATIONS U) ->
  run_outcome U cfg o w s r ->
  forall e, fst r <> Escaped e.
Proof.
  intros HU Hcur Hr e.
  destruct (index_of_member _ _ Hcur) as [i0 Hi0].
  destruct Hr as [e' Hi|i l snapshot _ _ _ _|i l e' _ _ _ Hw|
                  i text replies _ _ _ _ _|i text e' _ _ _ _ Hlex|
                  i s' l r _ _ _ _ Hwo]; cbn [fst]; try discriminate.
  - congruence.
  - destruct (importable_weather U o l HU) as [snapshot Hs]. congruence.
  - destruct (importable_lex U o (LEX_BOT_ID cfg) (LEX_BOT_ALIAS_ID cfg)
                (lex_session_id s) text (Some (lex_attributes_of s)) HU)
      as [replies Hr].
    unfold lex_call in Hlex. congruence.
  - destruct Hwo as [_|snapshot _ _|e' _ Hw]; cbn [fst]; try discriminate.
    destruct (importable_weather U o (current_location s') HU)
      as [snapshot Hs].
    congruence.
Qed.

End RunOutcomes.

Section RunFacts.

Variable U : helper_module.
Variable cfg : config.
Variable o : answers.

Lemma upload_outcome_session_id (uploaded : option uploaded_file)
    (s s' : session_state) (l : list event) :
  upload_outcome U cfg o uploaded s s' l ->
  lex_session_id s' = lex_session_id s
  /\ messages s' = messages s
  /\ current_location s' = current_location s
  /\ current_weather s' = current_weather s.
Proof. intros []; now repeat split. Qed.

Lemma upload_outcome_log (uploaded : option uploaded_file)
    (s s' : session_state) (l : list event) :
  upload_outcome U cfg o uploaded s s' l ->
  l = [] \/ exists b n, l = [UploadCalled b n].
Proof. intros []; eauto. Qed.

Lemma run_outcome_session_id (w : widgets) (s : session_state)
    (r : flow unit * world) :
  run_outcome U cfg o w s r ->
  lex_session_id (session (snd r)) = lex_session_id s.
Proof.
  intros [| | | | |i s' l r' _ _ _ Hup Hw]; try reflexivity.
  destruct (upload_outcome_session_id _ _ _ _ Hup) as (<- & _).
  now destruct Hw.
Qed.

Lemma run_outcome_log_ok (w : widgets) (s : session_state)
    (r : flow unit * world) :
  run_outcome U cfg o w s r -> run_log_ok (log (snd r)) = true.
Proof.
  intros [| | | | |i s' l r' _ _ _ Hup Hw]; try reflexivity.
  destruct (upload_outcome_log _ _ _ _ Hup) as [->|(b & n & ->)];
    now destruct Hw.
Qed.

Lemma run_outcome_chat_idle (w : widgets) (s : session_state)
    (r : flow unit * world) :
  chat_idle w ->
  run_outcome U cfg o w s r ->
  messages (session (snd r)) = messages s
  /\ existsb is_lex_call (log (snd r)) = false.
Proof.
  intros Hidle
    [| | |i text replies _ _ Hchat Htext _|i text e _ _ Hchat Htext _|
     i s' l r' _ _ _ Hup Hw]; try (now split).
  - destruct Hidle as [H|H]; rewrite H in Hchat; congruence.
  - destruct Hidle as [H|H]; rewrite H in Hchat; congruence.
  - destruct (upload_outcome_session_id _ _ _ _ Hup) as (_ & <- & _).
    destruct (upload_outcome_log _ _ _ _ Hup) as [->|(b & n & ->)];
      now destruct Hw.
Qed.

Lemma initial_weather_block_present (s : session_state) (l0 : list event) :
  py_eq_str (temp (current_weather s)) "N/A" = false ->
  initial_weather_block U o {| session := s; log := l0 |}
  = (Continue tt, {| session := s; log := l0 |}).
Proof.
  intros Hna.
  unfold initial_weather_block, bind, get_session, ret; cbn [session].
  now rewrite Hna.
Qed.

Lemma in_keys_assoc {V : Type} (k : string) (d : list (string * V)) :
  In k (map fst d) -> exists v, assoc k d = Some v.
Proof.
  induction d as [|[k' v] d IH]; [intros []|].
  cbn [map fst In assoc]. intros H.
  destruct (String.eqb k k') eqn:Hk; [now exists v|].
  destruct H as [->|H]; [now rewrite String.eqb_refl in Hk|auto].
Qed.

End RunFacts.

(** ** What holds of every run *)

(** X5: with either importable helper module, no run of the script lets
    an exception escape: not the first run of a connection, and no run
    from a state the connection can have reached, whatever the widgets
    hold and whatever the services answer. *)
Theorem run_never_escapes :
  forall (U : helper_module) (cfg : config),
    importable U ->
    (forall o w e, fst (run U cfg o w None) <> Escaped e)
    /\ (forall o w s e,
          reachable U cfg s ->
          fst (run U cfg o w (Some s)) <> Escaped e).
Proof.
  intros U cfg HU. split.
  - intros o w e. unfold run.
    apply (run_outcome_no_escape U cfg o w (initialise U o None)); auto.
    + cbn [initialise current_location].
      destruct HU as [->| ->]; vm_compute; tauto.
    + apply script_outcome.
  - intros o w s e Hs. unfold run. cbn [initialise].
    apply (run_outcome_no_escape U cfg o w s); auto.
    + now apply reachable_location_registered with cfg.
    + apply script_outcome.
Qed.

Lemma run_never_escapes_witness :
  fst (run live sample_config answers_smhi_down
         {| picked_location := Some "lund"; chat_input := Some "hello";
            file_uploader := Some plant_jpg |} None)
  <> Escaped Timeout.
Proof.
  destruct (run_never_escapes live sample_config) as [Hfirst _].
  - left. reflexivity.
  - apply Hfirst.
Defined.

(** X8: a run in which no chat text, or the empty text, was submitted
    leaves the transcript as it was and does not call the engine. *)
Theorem no_text_no_engine_call :
  forall (U : helper_module) (cfg : config) (o : answers) (w : widgets)
         (bag : option session_state),
    chat_input w = None \/ chat_input w = Some "" ->
    messages (state_after U cfg o w bag) = messages (initialise U o bag)
    /\ existsb is_lex_call (log (snd (run U cfg o w bag))) = false.
Proof.
  intros U cfg o w bag Hidle. unfold state_after, run.
  apply (run_outcome_chat_idle U cfg o w (initialise U o bag)); auto.
  apply script_outcome.
Qed.

Lemma no_text_no_engine_call_witness :
  let s := state_after stub sample_config sample_answers untouched None in
  let w := {| picked_location := None; chat_input := Some "";
              file_uploader := None |} in
  messages (state_after stub sample_config sample_answers w (Some s))
  = messages s.
Proof.
  intros s w.
  apply (no_text_no_engine_call stub sample_config sample_answers w
           (Some s)).
  right. reflexivity.
Defined.

(** X9: the session id is made once, from the identifier drawn in the
    first run, and no later run changes it, however that run ends. *)
Theorem session_id_fixed :
  forall (U : helper_module) (cfg : config) (o : answers) (w : widgets),
    lex_session_id (state_after U cfg o w None)
    = "st-session-" ++ session_uuid o
    /\ forall s,
         lex_session_id (state_after U cfg o w (Some s))
         = lex_session_id s.
Proof.
  intros U cfg o w. unfold state_after, run. split; [|intros s].
  - now rewrite (run_outcome_session_id U cfg o w (initialise U o None))
      by apply script_outcome.
  - now rewrite (run_outcome_session_id U cfg o w (initialise U o (Some s)))
      by apply script_outcome.
Qed.

(** X10: in every state a connection can reach the current location is a
    key of the module's table, so its coordinates can be looked up and
    the select box finds its index. *)
Theorem location_always_registered :
  forall (U : helper_module) (cfg : config) (s : session_state),
    importable U ->
    reachable U cfg s ->
    (exists c, assoc (current_location s) (LOCATION_COORDS U) = Some c)
    /\ exists i, index (current_location s) (AVAILABLE_LOCATIONS U)
                 = Normal i.
Proof.
  intros U cfg s HU Hs.
  pose proof (reachable_location_registered U cfg s HU Hs) as Hin.
  split; [now apply in_keys_assoc|now apply index_of_member].
Qed.

Lemma location_always_registered_witness :
  let s1 := state_after stub sample_config sample_answers untouched None in
  let w := {| picked_location := Some "Lund"; chat_input := None;
              file_uploader := None |} in
  let s2 := state_after stub sample_config sample_answers w (Some s1) in
  exists i, index (current_location s2) (AVAILABLE_LOCATIONS stub)
            = Normal i.
Proof.
  intros s1 w s2.
  apply (location_always_registered stub sample_config s2).
  - right. reflexivity.
  - apply reach_next; [apply reach_first; exact I|].
    vm_compute. tauto.
Defined.

(** X11: the calls and writes of one run have one of six forms: nothing;
    one weather fetch; a user turn and the engine call; these followed by
    the assistant turn; one upload; one upload followed by one weather
    fetch.  So a run calls the engine at most once and never together
    with the uploader or the weather service, and it fetches the weather
    and uploads at most once each. *)
Theorem run_log_shape :
  forall (U : helper_module) (cfg : config) (o : answers) (w : widgets)
         (bag : option session_state),
    run_log_ok (log (snd (run U cfg o w bag))) = true.
Proof.
  intros U cfg o w bag. unfold run.
  apply (run_outcome_log_ok U cfg o w (initialise U o bag)).
  apply script_outcome.
Qed.

(** ** Runs in which nothing is asked of the engine or the select box *)

Section QuietRuns.

Variable U : helper_module.
Variable cfg : config.
Variable o : answers.

Lemma quiet_run (w : widgets) (s : session_state) :
  In (current_location s) (AVAILABLE_LOCATIONS U) ->
  box_unchanged w s ->
  chat_idle w ->
  exists s' l,
    upload_outcome U cfg o (file_uploader w) s s' l
    /\ run U cfg o w (Some s)
       = initial_weather_block U o {| session := s'; log := l |}.
Proof.
  intros Hcur Hbox Hidle.
  destruct (index_of_member _ _ Hcur) as [i Hi].
  destruct (upload_block_outcome U cfg o (file_uploader w) s [])
    as (s' & l & Hup & Hblock).
  exists s', l. split; [exact Hup|].
  unfold run, script, bind. cbn [initialise].
  rewrite (header_block_unchanged U o w s [] i Hi Hbox).
  rewrite chat_block_idle by exact Hidle.
  now rewrite Hblock.
Qed.

End QuietRuns.

(** X12: once the session holds a weather reading, a run in which the
    user did nothing (select box on the current location, no chat text,
    no file in the uploader) changes nothing, calls nothing and ends
    without a rerun. *)
Theorem idle_run_changes_nothing :
  forall (U : helper_module) (cfg : config) (o : answers) (w : widgets)
         (s : session_state),
    In (current_location s) (AVAILABLE_LOCATIONS U) ->
    picked_location w = None
    \/ picked_location w = Some (current_location s) ->
    chat_input w = None \/ chat_input w = Some "" ->
    file_uploader w = None ->
    py_eq_str (temp (current_weather s)) "N/A" = false ->
    run U cfg o w (Some s) = (Continue tt, {| session := s; log := [] |}).
Proof.
  intros U cfg o w s Hcur Hbox Hidle Hfile Hna.
  destruct (quiet_run U cfg o w s Hcur Hbox Hidle) as (s' & l & Hup & ->).
  rewrite Hfile in Hup.
  destruct Hup as [_|f e H|f img H|f img key H]; try discriminate.
  now apply initial_weather_block_present.
Qed.

Lemma idle_run_changes_nothing_witness :
  let s := state_after stub sample_config sample_answers untouched None in
  run stub sample_config answers_smhi_down untouched (Some s)
  = (Continue tt, {| session := s; log := [] |}).
Proof.
  intros s.
  apply (idle_run_changes_nothing stub sample_config answers_smhi_down
           untouched s).
  - vm_compute. tauto.
  - left. reflexivity.
  - left. reflexivity.
  - reflexivity.
  - reflexivity.
Defined.

(** X13: with [aws_utils], while the weather service fails, a run in which
    the user did nothing fetches the weather for the current location
    again and reruns, and the snapshot it stores again has an error and
    the temperature "N/A": the script keeps fetching and rerunning for as
    long as the failure lasts. *)
Theorem failed_fetch_is_retried :
  forall (cfg : config) (o : answers) (w : widgets) (s : session_state),
    In (current_location s) (AVAILABLE_LOCATIONS live) ->
    picked_location w = None
    \/ picked_location w = Some (current_location s) ->
    chat_input w = None \/ chat_input w = Some "" ->
    file_uploader w = None ->
    temp (current_weather s) = NA ->
    fetch_failed (http o) (Some (current_location s)) ->
    exists snapshot,
      run live cfg o w (Some s)
      = (Rerun,
         {| session := set_current_weather s snapshot;
            log := [WeatherFetched (current_location s)] |})
      /\ temp snapshot = NA
      /\ has_error snapshot
      /\ current_location (set_current_weather s snapshot)
         = current_location s.
Proof.
  intros cfg o w s Hcur Hbox Hidle Hfile Hna Hfail.
  destruct (get_weather_for_location_returns (http o)
              (Some (current_location s))) as [snapshot Hw].
  destruct (get_weather_for_location_failed _ _ _ Hw Hfail)
    as (Herr & Htemp & _).
  exists snapshot.
  destruct (quiet_run live cfg o w s Hcur Hbox Hidle)
    as (s' & l & Hup & ->).
  rewrite Hfile in Hup.
  destruct Hup as [_|f e H|f img H|f img key H]; try discriminate.
  now rewrite (initial_weather_block_fetches live o s snapshot [] Hna Hw).
Qed.

Lemma failed_fetch_is_retried_witness :
  let s := state_after live sample_config answers_smhi_down untouched None in
  exists snapshot,
    run live sample_config answers_smhi_down untouched (Some s)
    = (Rerun,
       {| session := set_current_weather s snapshot;
          log := [WeatherFetched "uppsala"] |})
    /\ temp snapshot = NA.
Proof.
  intros s.
  destruct (failed_fetch_is_retried sample_config answers_smhi_down
              untouched s) as (snapshot & Hrun & Htemp & _).
  - vm_compute. tauto.
  - left. reflexivity.
  - left. reflexivity.
  - reflexivity.
  - reflexivity.
  - left. exists Timeout. reflexivity.
  - exists snapshot. split; [exact Hrun|exact Htemp].
Defined.

(** X7: when the upload of the file in the uploader does not end with a
    usable key -- PIL rejects the bytes, the uploader raises or reports
    failure, or the key is empty -- the run clears the stored picture and
    its name, also those of an earlier successful upload, and leaves the
    transcript, the location and the session id alone. *)
Theorem failed_upload_clears :
  forall (U : helper_module) (cfg : config) (o : answers) (w : widgets)
         (s : session_state) (f : uploaded_file),
    In (current_location s) (AVAILABLE_LOCATIONS U) ->
    picked_location w = None
    \/ picked_location w = Some (current_location s) ->
    chat_input w = None \/ chat_input w = Some "" ->
    file_uploader w = Some f ->
    upload_fails U cfg o f ->
    let s' := state_after U cfg o w (Some s) in
    uploaded_image s' = None
    /\ uploaded_image_key s' = None
    /\ messages s' = messages s
    /\ current_location s' = current_location s
    /\ lex_session_id s' = lex_session_id s.
Proof.
  intros U cfg o w s f Hcur Hbox Hidle Hfile Hfails. cbv zeta.
  unfold state_after.
  destruct (quiet_run U cfg o w s Hcur Hbox Hidle) as (s' & l & Hup & ->).
  rewrite Hfile in Hup.
  assert (Hs' : s' = set_uploaded s None None).
  { destruct Hup as [H|f' e H _|f' img H _ _|f' img key H Himg Hkey Hne];
      try discriminate; try reflexivity.
    injection H as <-. unfold upload_call in Hkey.
    destruct Hfails as [[e He]|[[e He]|[He|He]]]; congruence. }
  subst s'.
  pose proof (initial_weather_block_outcome U o
                (set_uploaded s None None) l) as Hw.
  now destruct Hw.
Qed.

Lemma failed_upload_clears_witness :
  let s0 := state_after live sample_config sample_answers untouched None in
  let w := {| picked_location := None; chat_input := None;
              file_uploader := Some plant_jpg |} in
  let s1 := state_after live sample_config sample_answers w (Some s0) in
  uploaded_image_key s1 = Some "plant.jpg"
  /\ uploaded_image_key
       (state_after live sample_config answers_s3_down w (Some s1))
     = None.
Proof.
  intros s0 w s1. split; [reflexivity|].
  apply (failed_upload_clears live sample_config answers_s3_down w s1
           plant_jpg).
  - vm_compute. tauto.
  - left. reflexivity.
  - left. reflexivity.
  - reflexivity.
  - right. right. left. reflexivity.
Defined.

(** ** The stub's weather and replies *)

(** X14: for every location name the stub's weather has no error and three
    numeric readings: a temperature from 10 to 24, a humidity from 60 to
    89 and a precipitation from 0 to 0.4; so its temperature is never
    "N/A". *)
Theorem stub_weather_in_range :
  forall name : string,
    exists t h p,
      aws_utils_stub.get_weather_for_location (Some name)
      = Normal {| temp := PNum t; humidity := PNum h; precip := PNum p;
                  error := None |}
      /\ (10 <= t /\ t <= 24)%Q
      /\ (60 <= h /\ h <= 89)%Q
      /\ (0 <= p /\ p <= 0.4)%Q.
Proof.
  intros name. unfold aws_utils_stub.get_weather_for_location.
  pose proof (Nat.mod_upper_bound (String.length name) 15) as H15.
  pose proof (Nat.mod_upper_bound (String.length name) 30) as H30.
  pose proof (Nat.mod_upper_bound (String.length name) 5) as H5.
  do 3 eexists. split; [reflexivity|].
  unfold Qle, inject_Z; cbn [Qnum Qden]. lia.
Qed.

(** X15: with the stub, a session settles after its first run: the next
    run in which the user does nothing changes nothing, fetches nothing
    and does not rerun. *)
Theorem stub_session_settles :
  forall (cfg : config) (o o' : answers),
    let s := state_after stub cfg o untouched None in
    run stub cfg o' untouched (Some s)
    = (Continue tt, {| session := s; log := [] |}).
Proof.
  intros cfg o o'. cbv zeta. unfold state_after.
  assert (Hw : exists t h p,
             aws_utils_stub.get_weather_for_location
               (Some (DEFAULT_LOCATION stub))
             = Normal {| temp := PNum t; humidity := PNum h;
                         precip := PNum p; error := None |})
    by (do 3 eexists; reflexivity).
  destruct Hw as (t & h & p & Hw).
  rewrite (first_run stub cfg o _ ltac:(vm_compute; tauto) Hw).
  cbn [snd session].
  destruct (quiet_run stub cfg o' untouched
              (set_current_weather (initialise stub o None)
                 {| temp := PNum t; humidity := PNum h; precip := PNum p;
                    error := None |}))
    as (s' & l & Hup & ->).
  - vm_compute. tauto.
  - now left.
  - now left.
  - destruct Hup as [_|f e H|f img H|f img key H]; try discriminate.
    now apply initial_weather_block_present.
Qed.

Section StubReplies.

Lemma stub_plain_reply (bot_id alias_id session_id text loc : string) :
  plain_question text = true ->
  aws_utils_stub.post_text_to_lex bot_id alias_id session_id text
    (Some [("currentLocation", loc)])
  = Normal ["Okay, you asked about '" ++ text
            ++ "'. Location context is '" ++ loc ++ "'."].
Proof.
  unfold plain_question, aws_utils_stub.post_text_to_lex.
  destruct (contains "risk" (lower text)),
           (contains "high" (lower text)),
           (contains "filename" (lower text)),
           (contains ".jpg" (lower text)),
           (contains ".png" (lower text)); try discriminate.
  intros _. cbn [orb].
  change (assoc "currentLocation" [("currentLocation", loc)])
    with (Some loc).
  cbv beta iota. now rewrite !string_app_assoc.
Qed.

End StubReplies.

(** X16: with the stub, a chat text that names none of the words the stub
    reacts to (risk, high, filename, .jpg, .png, in any letter case) is
    answered by one assistant turn that quotes the text and the session's
    current location. *)
Theorem stub_echo_names_location :
  forall (cfg : config) (o : answers) (w : widgets) (s : session_state)
         (text : string),
    In (current_location s) (AVAILABLE_LOCATIONS stub) ->
    picked_location w = None
    \/ picked_location w = Some (current_location s) ->
    chat_input w = Some text ->
    text <> "" ->
    plain_question text = true ->
    messages (state_after stub cfg o w (Some s))
    = (messages s
       ++ [user_turn text;
           assistant_turn
             ("Okay, you asked about '" ++ text
              ++ "'. Location context is '" ++ current_location s
              ++ "'.")])%list.
Proof.
  intros cfg o w s text Hcur Hbox Hchat Htext Hplain.
  destruct (index_of_member _ _ Hcur) as [i Hi].
  unfold state_after, run, script, bind. cbn [initialise].
  rewrite (header_block_unchanged stub o w s [] i Hi Hbox), Hchat.
  rewrite (chat_block_sends stub cfg o s text _ [] Htext
             (stub_plain_reply _ _ _ text (current_location s) Hplain)).
  reflexivity.
Qed.

Lemma stub_echo_names_location_witness :
  let s := state_after stub sample_config sample_answers untouched None in
  let w := {| picked_location := None;
              chat_input := Some "How are my potatoes?";
              file_uploader := None |} in
  messages (state_after stub sample_config sample_answers w (Some s))
  = [user_turn "How are my potatoes?";
     assistant_turn
       ("Okay, you asked about 'How are my potatoes?'."
        ++ " Location context is 'Stockholm'.")].
Proof.
  intros s w.
  apply (stub_echo_names_location sample_config sample_answers w s
           "How are my potatoes?").
  - vm_compute. tauto.
  - left. reflexivity.
  - reflexivity.
  - discriminate.
  - reflexivity.
Defined.

(** ** The weather the session holds *)

Section LastFetch.

Variable U : helper_module.
Variable cfg : config.

Lemma run_outcome_last_fetch (o : answers) (w : widgets)
    (s : session_state) (last : option (answers * string))
    (r : flow unit * world) :
  importable U ->
  weather_of_last_fetch U s last ->
  run_outcome U cfg o w s r ->
  weather_of_last_fetch U (session (snd r))
    (note_fetch last o (log (snd r))).
Proof.
  intros HU Hs
    [e _|i l snapshot _ _ _ Hw|i l e _ _ _ Hw| | |i s' l r' _ _ _ Hup Hwo];
    cbn [snd session log]; try exact Hs.
  - now split.
  - destruct (importable_weather U o l HU) as [snapshot Hn]. congruence.
  - assert (Hs' : weather_of_last_fetch U s' last).
    { destruct (upload_outcome_session_id U cfg o _ _ _ _ Hup)
        as (_ & _ & Hl & Hcw).
      unfold weather_of_last_fetch in *.
      destruct last as [[o' loc]|]; now rewrite ?Hl, Hcw. }
    destruct (upload_outcome_log U cfg o _ _ _ _ Hup)
      as [->|(b & n & ->)];
      destruct Hwo as [_|snapshot _ Hw|e _ Hw]; cbn [snd session log];
      try exact Hs'; try (now split);
      destruct (importable_weather U o (current_location s') HU)
        as [snapshot Hn]; congruence.
Qed.

Lemma reachable_last_fetch (s : session_state)
    (last : option (answers * string)) :
  importable U ->
  reachable_with_fetch U cfg s last ->
  weather_of_last_fetch U s last.
Proof.
  intros HU Hs.
  induction Hs as [o w _|o w s last _ IH _]; unfold state_after, run.
  - apply (run_outcome_last_fetch o w (initialise U o None) None); auto.
    + reflexivity.
    + apply script_outcome.
  - apply (run_outcome_last_fetch o w (initialise U o (Some s)) last); auto.
    apply script_outcome.
Qed.

(** Every reachable state comes with such a record of its last fetch. *)
Lemma reachable_has_last_fetch (s : session_state) :
  reachable U cfg s -> exists last, reachable_with_fetch U cfg s last.
Proof.
  intros Hs. induction Hs as [o w Hoff|o w s _ [last IH] Hoff].
  - eexists. now apply rwf_first.
  - eexists. now apply rwf_next with (last := last).
Qed.

End LastFetch.

(** X18: in every state a connection can reach, the stored weather is the
    all-"N/A" placeholder of a new session as long as no run has fetched
    the weather; after that it is the snapshot the connection's last fetch
    returned, and that fetch was made for the location the session has
    now.  So a snapshot fetched for an earlier location never stays after
    the location changed. *)
Theorem weather_never_stale :
  forall (U : helper_module) (cfg : config) (s : session_state)
         (last : option (answers * string)),
    importable U ->
    reachable_with_fetch U cfg s last ->
    match last with
    | None => current_weather s = unavailable
    | Some (o, loc) =>
        loc = current_location s
        /\ get_weather_for_location U o (Some loc)
           = Normal (current_weather s)
    end.
Proof.
  intros U cfg s last HU Hs.
  exact (reachable_last_fetch U cfg s last HU Hs).
Qed.

Lemma weather_never_stale_witness :
  let s1 := state_after live sample_config sample_answers untouched None in
  let w := {| picked_location := Some "lund"; chat_input := None;
              file_uploader := None |} in
  let s2 := state_after live sample_config answers_smhi_down w (Some s1) in
  current_location s2 = "lund"
  /\ get_weather_for_location live answers_smhi_down (Some "lund")
     = Normal (current_weather s2).
Proof.
  intros s1 w s2.
  apply (weather_never_stale live sample_config s2
           (Some (answers_smhi_down, "lund"))).
  - left. reflexivity.
  - apply (rwf_next live sample_config answers_smhi_down w s1
             (Some (sample_answers, "uppsala"))).
    + apply (rwf_first live sample_config sample_answers untouched).
      exact I.
    + vm_compute. tauto.
Defined.

(** X17: with [aws_utils], picking a registered location other than the
    current one stores the snapshot made from the service's answer to one
    request: longitude and latitude are those the registry lists for the
    picked name, the client names itself and the timeout is ten
    seconds. *)
Theorem change_location_requests_registered_point :
  forall (cfg : config) (o : answers) (w : widgets) (s : session_state)
         (l : string) (lat lon : Q),
    In (current_location s) (AVAILABLE_LOCATIONS live) ->
    In (l, (lat, lon)) aws_utils.LOCATION_COORDS ->
    l <> current_location s ->
    picked_location w = Some l ->
    current_weather (state_after live cfg o w (Some s))
    = snapshot_of_answer
        (http o {| req_lon := lon; req_lat := lat;
                   req_user_agent :=
                     "PotatoHealthAppUI/1.0 (YourContactInfoHere)";
                   req_timeout := 10 |}).
Proof.
  intros cfg o w s l lat lon Hcur Hl Hne Hpick.
  unfold state_after, run, script, bind. cbn [initialise]. rewrite Hpick.
  rewrite (header_block_changes live o s l _ [] Hcur Hne
             (get_weather_for_location_snapshot (http o) (Some l))).
  cbn [snd session set_current_weather current_weather].
  destruct (get_coordinates_registered l (lat, lon) Hl) as [-> _].
  reflexivity.
Qed.

Lemma change_location_requests_registered_point_witness :
  let s := state_after live sample_config sample_answers untouched None in
  let w := {| picked_location := Some "stockholm"; chat_input := None;
              file_uploader := None |} in
  current_weather
    (state_after live sample_config answers_smhi_down w (Some s))
  = snapshot_of_answer
      (http answers_smhi_down
         {| req_lon := 18.06; req_lat := 59.33;
            req_user_agent := "PotatoHealthAppUI/1.0 (YourContactInfoHere)";
            req_timeout := 10 |}).
Proof.
  intros s w.
  apply (change_location_requests_registered_point sample_config
           answers_smhi_down w s "stockholm" 59.33%Q 18.06%Q).
  - vm_compute. tauto.
  - cbn. tauto.
  - vm_compute. discriminate.
  - reflexivity.
Defined.
